(** * The Shibboleth remote-user backend, embedded in Rocq

    This development embeds [ShibbolethRemoteUserBackend.authenticate]
    (src/shibboleth/backends.py) together with the part of the Django ORM
    it calls, and proves what the method does to the user table, the group
    table, the membership table and the caller's attribute dictionary.

    Layout: Python values and exceptions; the three tables and the log
    of operations on them; the state-and-exception monad the method runs
    in; the ORM calls ([User.objects.get], [get_or_create], [save], the
    [user_set] manager), each with the behaviour Django gives it; the
    method itself, line by line; then the properties.

    Scope of the store model.  The user table is followed for the text
    columns of [auth_user] (a string is stored and compared as it is)
    and for its boolean columns (a string is stored as [bool(value)] and
    reads back as a bool).  The other columns, the [id], the two
    datetime columns and the two related managers, have no semantics of
    their own here, nor have column defaults.  A property that depends
    on how a value is stored, compared or refused therefore states
    [text_params] or [column_params] as a hypothesis; the properties
    without it speak of what the method does whatever the columns
    are. *)

From stdpp Require Import base option list list_numbers gmap sets strings fin_maps.

Local Open Scope string_scope.
Local Open Scope list_scope.

(** ** Python values *)

(** A Python value the method handles: a header string, a list of
    strings (the [groups] entry of [shib_meta]), or a typed value read
    back from a database column ([True], [False], a [datetime]), known
    by its [repr].  A typed value is never equal to a string and cannot
    be iterated. *)
Inductive attr : Type :=
| AStr (s : string)
| AList (l : list string)
| ATyped (repr : string).

#[global] Instance attr_eq_dec : EqDecision attr.
Proof. solve_decision. Defined.

(** The exceptions the method can meet.  [DoesNotExist] and
    [MultipleObjectsReturned] come from [QuerySet.get], [IntegrityError]
    from a write refused by the unique index on [username], [TypeError]
    from iterating over [None]. *)
Inductive exn : Type :=
| TypeError
| IntegrityError
| DoesNotExist
| MultipleObjectsReturned.

#[global] Instance exn_eq_dec : EqDecision exn.
Proof. solve_decision. Defined.

(** [remote_user] is [None] or a string; Python's truth value of it. *)
Definition truthy (remote_user : option string) : bool :=
  match remote_user with
  | None => false
  | Some s => negb (bool_decide (s = ""))
  end.

(** ** The store *)

(** A model instance of [User]: its primary key and the values of the
    fields it was built or read with.  [getattr(user, k, None)] is
    [fields user !! k]; the defaults Django gives the columns that were
    not set are not part of the model. *)
Record User : Type := mkUser {
  pk : nat;
  fields : gmap string attr
}.

#[global] Instance User_eq_dec : EqDecision User.
Proof. solve_decision. Defined.

Definition setattr (user : User) (k : string) (v : attr) : User :=
  mkUser (pk user) (<[k := v]> (fields user)).

(** The [CharField] columns of [auth_user] (the e-mail column is one):
    a string assigned to them is stored as it is. *)
Definition text_columns : list string :=
  ["username"; "first_name"; "last_name"; "email"; "password"].

(** The [BooleanField] columns of [auth_user]. *)
Definition boolean_columns : list string :=
  ["is_active"; "is_staff"; "is_superuser"].

(** Python's [bool(v)]. *)
Definition truth (v : attr) : bool :=
  match v with
  | AStr s => negb (bool_decide (s = ""))
  | AList l => negb (bool_decide (l = []))
  | ATyped r => negb (bool_decide (r = "False"))
  end.

(** [Field.get_prep_value]: what a column stores for the value an
    object holds.  A [BooleanField] stores [bool(value)], so that the
    string ['true'] is stored, and read back, as [True]; a value that
    was read from the column is stored again as it is. *)
Definition prep_value (k : string) (v : attr) : attr :=
  if decide (k ∈ boolean_columns) then
    match v with
    | ATyped r => ATyped r
    | _ => ATyped (if truth v then "True" else "False")
    end
  else v.

(** The row a model instance is written as. *)
Definition to_db (user : User) : User :=
  mkUser (pk user) (map_imap (λ k v, Some (prep_value k v)) (fields user)).

(** The tables [auth_user], [auth_group] (a group is its unique name) and
    [auth_user_groups] (user primary key, group name), rows in insertion
    order. *)
Record db : Type := mkDb {
  auth_user : list User;
  auth_group : list string;
  auth_user_groups : list (nat * string)
}.

#[global] Instance db_eq_dec : EqDecision db.
Proof. solve_decision. Defined.

(** What the method does to its collaborators, in program order.  Reads
    are logged as well as writes; a write the unique index refuses is
    logged as rejected and leaves the tables as they were. *)
Inductive event : Type :=
| UserSelect (q : gmap string attr)
| UserInsert (u : User)
| UserInsertRejected (params : gmap string attr)
| UserUpdate (u : User)
| UserUpdateRejected (u : User)
| GroupSelect (name : string)
| GroupInsert (name : string)
| MembershipSelect (user_pk : nat)
| MembershipInsert (user_pk : nat) (group : string)
| MembershipDelete (user_pk : nat) (group : string)
| ConfigureUser (u : User)
| ArchiveAttributes (u : User) (shib_meta : gmap string attr).

#[global] Instance event_eq_dec : EqDecision event.
Proof. solve_decision. Defined.

(** The events that change a table. *)
Definition is_store_write (e : event) : bool :=
  match e with
  | UserInsert _ | UserUpdate _ | GroupInsert _
  | MembershipInsert _ _ | MembershipDelete _ _ => true
  | _ => false
  end.

(** A call of [user.save()], accepted or refused. *)
Definition is_persist_call (e : event) : bool :=
  match e with
  | UserUpdate _ | UserUpdateRejected _ => true
  | _ => false
  end.

Definition is_membership_write (e : event) : bool :=
  match e with
  | MembershipInsert _ _ | MembershipDelete _ _ => true
  | _ => false
  end.

(** The names of the groups user [p] is a member of. *)
Definition groups_of (σ : db) (p : nat) : gset string :=
  list_to_set ((filter (λ r, r.1 = p) (auth_user_groups σ)).*2).

(** ** The execution monad: state, exceptions, event log *)

Inductive result (A : Type) : Type :=
| Return (a : A)
| Raise (e : exn).
Arguments Return {A} a.
Arguments Raise {A} e.

Definition M (A : Type) : Type := db → result A * db * list event.

#[global] Instance M_ret : MRet M := λ A a σ, (Return a, σ, []).

#[global] Instance M_bind : MBind M := λ A B f c σ,
  match c σ with
  | (Return a, σ1, ev1) =>
      match f a σ1 with
      | (r, σ2, ev2) => (r, σ2, ev1 ++ ev2)
      end
  | (Raise e, σ1, ev1) => (Raise e, σ1, ev1)
  end.

Definition raise {A} (e : exn) : M A := λ σ, (Raise e, σ, []).

(** [try: c except e: h]. *)
Definition try_except {A} (c : M A) (e : exn) (h : M A) : M A := λ σ,
  match c σ with
  | (Raise e', σ1, ev1) =>
      if decide (e' = e) then
        match h σ1 with
        | (r, σ2, ev2) => (r, σ2, ev1 ++ ev2)
        end
      else (Raise e', σ1, ev1)
  | ok => ok
  end.

(** [for x in l: s = body(x, s)]. *)
Fixpoint for_fold {A S} (l : list A) (body : A → S → M S) (s : S) : M S :=
  match l with
  | [] => mret s
  | x :: l' => s' ← body x s; for_fold l' body s'
  end.

(** [for x in l: body(x)]. *)
Fixpoint for_each {A} (l : list A) (body : A → M ()) : M () :=
  match l with
  | [] => mret ()
  | x :: l' => body x;; for_each l' body
  end.

(** ** The Django ORM calls the method makes *)

(** The keyword filter of a query: the row has every field of [q] with
    that value.  This is the comparison of a text column; what Django
    does to a value of another column before it compares is not
    modelled. *)
Definition row_matches (q : gmap string attr) (u : User) : Prop :=
  map_Forall (λ k v, fields u !! k = Some v) q.

#[global] Instance row_matches_dec q u : Decision (row_matches q u).
Proof. unfold row_matches. apply _. Defined.

(** The unique index on [auth_user.username]: a row other than [self_pk]
    already holds the username of [f]. *)
Definition username_taken (rows : list User) (self_pk : option nat)
    (f : gmap string attr) : Prop :=
  Exists (λ r, Some (pk r) ≠ self_pk ∧ is_Some (f !! "username")
               ∧ fields r !! "username" = f !! "username") rows.

#[global] Instance username_taken_dec rows self_pk f :
  Decision (username_taken rows self_pk f).
Proof. unfold username_taken. apply _. Defined.

(** A key for the next row, above every key of the table.  (A database
    sequence may skip keys; the general properties use only that the
    key is new.) *)
Definition next_pk (rows : list User) : nat := S (max_list (pk <$> rows)).

(** [User.objects.get] with keyword arguments [q]: one row or an
    exception. *)
Definition User_objects_get (q : gmap string attr) : M User := λ σ,
  match filter (row_matches q) (auth_user σ) with
  | [] => (Raise DoesNotExist, σ, [UserSelect q])
  | [u] => (Return u, σ, [UserSelect q])
  | _ :: _ :: _ => (Raise MultipleObjectsReturned, σ, [UserSelect q])
  end.

(** [obj = User(params); obj.save(force_insert=True)] inside a
    savepoint: the row is added, or the unique index refuses it and
    nothing changes.  The object keeps the values it was given; the row
    holds what the columns make of them.  Parameters other than text
    and boolean columns (an [id], a datetime, a related manager) are
    taken like text. *)
Definition User_insert (params : gmap string attr) : M User := λ σ,
  if decide (username_taken (auth_user σ) None params) then
    (Raise IntegrityError, σ, [UserInsertRejected params])
  else
    let obj := mkUser (next_pk (auth_user σ)) params in
    (Return obj,
     mkDb (auth_user σ ++ [to_db obj]) (auth_group σ) (auth_user_groups σ),
     [UserInsert obj]).

(** [User.objects.get_or_create(username=username, defaults=defaults)].
    Django looks the row up by the keyword arguments; when there is none
    it builds the new row from the keyword arguments updated with
    [defaults] (so a [username] among the defaults wins), and when the
    insert is refused it looks up once more before re-raising. *)
Definition User_objects_get_or_create (username : string)
    (defaults : gmap string attr) : M (User * bool) :=
  let lookup : gmap string attr := {[ "username" := AStr username ]} in
  try_except (u ← User_objects_get lookup; mret (u, false)) DoesNotExist
    (let params := defaults ∪ lookup in
     try_except (obj ← User_insert params; mret (obj, true)) IntegrityError
       (try_except (u ← User_objects_get lookup; mret (u, false))
          DoesNotExist (raise IntegrityError))).

(** [user.save()] of a row that was fetched: an UPDATE by primary key,
    refused when the new username belongs to another row.  The row
    holds what the columns make of the object's values; fields other
    than text and boolean columns are taken like text. *)
Definition User_save (user : User) : M () := λ σ,
  if decide (username_taken (auth_user σ) (Some (pk user)) (fields user)) then
    (Raise IntegrityError, σ, [UserUpdateRejected user])
  else
    (Return (),
     mkDb ((λ r, if decide (pk r = pk user) then to_db user else r)
             <$> auth_user σ)
          (auth_group σ) (auth_user_groups σ),
     [UserUpdate user]).

(** [Group.objects.get_or_create(name=g)]. *)
Definition Group_objects_get_or_create (name : string) : M string := λ σ,
  if decide (name ∈ auth_group σ) then (Return name, σ, [GroupSelect name])
  else
    (Return name,
     mkDb (auth_user σ) (auth_group σ ++ [name]) (auth_user_groups σ),
     [GroupSelect name; GroupInsert name]).

(** [group.user_set.add(user)]: Django reads the rows already there and
    inserts only a missing one. *)
Definition user_set_add (group : string) (user : User) : M () := λ σ,
  if decide ((pk user, group) ∈ auth_user_groups σ) then
    (Return (), σ, [MembershipSelect (pk user)])
  else
    (Return (),
     mkDb (auth_user σ) (auth_group σ) (auth_user_groups σ ++ [(pk user, group)]),
     [MembershipSelect (pk user); MembershipInsert (pk user) group]).

(** [user.groups.all().exclude(name__in=used_groups)]. *)
Definition user_groups_exclude (user : User) (used_groups : list string)
    : M (list string) := λ σ,
  (Return (filter (λ g, g ∉ used_groups)
             ((filter (λ r, r.1 = pk user) (auth_user_groups σ)).*2)),
   σ, [MembershipSelect (pk user)]).

(** [group.user_set.remove(user)]. *)
Definition user_set_remove (group : string) (user : User) : M () := λ σ,
  (Return (),
   mkDb (auth_user σ) (auth_group σ)
        (filter (λ r, r ≠ (pk user, group)) (auth_user_groups σ)),
   [MembershipDelete (pk user) group]).

(** Modelled from the spec: [SHIB_ATTRIBUTE_MAP_SAVER] is imported from
    [shibboleth.app_settings], which is not among the sources.  The spec
    gives the Attribute Archiver as [archive(user, attributes)], a side
    effect with no return contract and a record of its own, outside the
    identity store; the call is logged with its two arguments and the
    tables are left alone. *)
Definition SHIB_ATTRIBUTE_MAP_SAVER (user : User)
    (shib_meta : gmap string attr) : M () := λ σ,
  (Return (), σ, [ArchiveAttributes user shib_meta]).

(** ** The backend *)

(** The class attribute and the two methods [authenticate] calls on
    [self]; a subclass may override each.  [configure_user] receives the
    new user, may change the tables, and returns a user. *)
Record Backend : Type := mkBackend {
  create_unknown_user : bool;
  clean_username : string → string;
  configure_user : User → db → User * db
}.

(** [RemoteUserBackend.configure_user] and [clean_username] as Django
    defines them: both return their argument. *)
Definition inherited_configure_user (user : User) (σ : db) : User * db :=
  (user, σ).

Definition inherited_clean_username (username : string) : string := username.

(** The class as the source declares it. *)
Definition ShibbolethRemoteUserBackend : Backend :=
  mkBackend true inherited_clean_username inherited_configure_user.

Definition self_configure_user (self : Backend) (user : User) : M User := λ σ,
  let '(user', σ') := configure_user self user σ in
  (Return user', σ', [ConfigureUser user]).

(** [for g in groups]: a list gives its elements, a string its
    characters (a string is a sequence of one-byte characters here, as
    a Python string of ASCII characters is), [None] and a value that is
    not iterable raise [TypeError]. *)
Definition iter (groups : option attr) : M (list string) :=
  match groups with
  | None => raise TypeError
  | Some (AList l) => mret l
  | Some (AStr s) => mret ((λ c, String c EmptyString) <$> String.list_ascii_of_string s)
  | Some (ATyped _) => raise TypeError
  end.

(** What [authenticate] leaves behind: the caller's dictionary, the
    value returned or the exception raised, the tables, and the log. *)
Record outcome : Type := mkOutcome {
  shib_meta_after : gmap string attr;
  returned : result (option User);
  db_after : db;
  events : list event
}.

Section Authenticate.

(** [User._meta.get_all_field_names()], fixed by the Django schema. *)
Variable get_all_field_names : list string.

(** Line 43: [dict([(k, shib_meta[k]) for k in ... if k in shib_meta])]. *)
Definition shib_user_params_of (shib_meta : gmap string attr)
    : gmap string attr :=
  list_to_map (omap (λ k, (k,.) <$> shib_meta !! k) get_all_field_names).

(** Lines 53-58: the loop over [shib_user_params.items()]. *)
Definition update_fields (shib_user_params : gmap string attr) (user : User)
    : User * bool :=
  map_fold (λ k v '(user, updated),
              let oldv := fields user !! k in
              if decide (oldv ≠ Some v) then (setattr user k v, true)
              else (user, updated))
           (user, false) shib_user_params.

(** Lines 63-73. *)
Definition sync_groups (groups : option attr) (user : User) : M () :=
  gs ← iter groups;
  used_groups ← for_fold gs (λ g used_groups,
      group ← Group_objects_get_or_create g;
      user_set_add group user;;
      mret (used_groups ++ [g])) [];
  stale ← user_groups_exclude user used_groups;
  for_each stale (λ group, user_set_remove group user).

(** Lines 47-82, after the dictionary has been split. *)
Definition reconcile (self : Backend) (username : string)
    (groups : option attr) (shib_meta shib_user_params : gmap string attr)
    : M (option User) :=
  if create_unknown_user self then
    '(user, created) ← User_objects_get_or_create username shib_user_params;
    user ← (if created : bool then self_configure_user self user
            else
              let '(user, updated) := update_fields shib_user_params user in
              (if updated : bool then User_save user else mret ());;
              mret user);
    sync_groups groups user;;
    SHIB_ATTRIBUTE_MAP_SAVER user shib_meta;;
    mret (Some user)
  else
    try_except (user ← User_objects_get shib_user_params; mret (Some user))
      DoesNotExist (mret None).

(** [ShibbolethRemoteUserBackend.authenticate(self, remote_user, shib_meta)]. *)
Definition authenticate (self : Backend) (remote_user : option string)
    (shib_meta : gmap string attr) (σ : db) : outcome :=
  match remote_user with
  | Some remote_user_str =>
      if truthy remote_user then
        let username := clean_username self remote_user_str in
        let '(groups, shib_meta) :=
          match shib_meta !! "groups" with
          | Some g => (Some g, delete "groups" shib_meta)
          | None => (None, shib_meta)
          end in
        let shib_user_params := shib_user_params_of shib_meta in
        match reconcile self username groups shib_meta shib_user_params σ with
        | (r, σ', ev) => mkOutcome shib_meta r σ' ev
        end
      else mkOutcome shib_meta (Return None) σ []
  | None => mkOutcome shib_meta (Return None) σ []
  end.

End Authenticate.

(** ** Auxiliary definitions for the proofs *)

(** The events the two loops can emit. *)
Definition is_group_sync_event (e : event) : bool :=
  match e with
  | GroupSelect _ | GroupInsert _ | MembershipSelect _
  | MembershipInsert _ _ | MembershipDelete _ _ => true
  | _ => false
  end.

(** User [p] is in every group of [gs], each of them exists, and [p] is
    in no other group. *)
Definition synced (p : nat) (gs : list string) (σ : db) : Prop :=
  (∀ g, g ∈ gs → g ∈ auth_group σ ∧ (p, g) ∈ auth_user_groups σ) ∧
  (∀ r, r ∈ auth_user_groups σ → r.1 = p → r.2 ∈ gs).

Local Abbreviation add_body user :=
  (λ (g : string) (used_groups : list string),
     group ← Group_objects_get_or_create g;
     user_set_add group user;;
     mret (used_groups ++ [g])).

Local Abbreviation by_username username :=
  ({[ "username" := AStr username ]} : gmap string attr).

(** Lines 62-75 and the [return]: what remains once [user] is settled. *)
Definition after_user (groups : option attr) (user : User)
    (shib_meta : gmap string attr) : M (option User) :=
  sync_groups groups user;;
  SHIB_ATTRIBUTE_MAP_SAVER user shib_meta;;
  mret (Some user).

Definition prepend (evs : list event)
    (x : result (option User) * db * list event)
    : result (option User) * db * list event :=
  (x.1.1, x.1.2, evs ++ x.2).

Definition iter_values (groups : attr) : list string :=
  match groups with
  | AList l => l
  | AStr s => (λ c, String c EmptyString) <$> String.list_ascii_of_string s
  | ATyped _ => []
  end.

(** The values [for g in groups] can walk through. *)
Definition iterable (groups : attr) : Prop :=
  match groups with
  | ATyped _ => False
  | _ => True
  end.

(** The [groups] on which line 66 raises: [None], or a value that is
    not iterable. *)
Definition not_iterable (groups : option attr) : Prop :=
  match groups with
  | None | Some (ATyped _) => True
  | _ => False
  end.

Definition is_str (v : attr) : bool :=
  match v with
  | AStr _ => true
  | _ => false
  end.

(** Every recognised key of the dictionary is a text column, and its
    value a string. *)
Definition text_params (shib_user_params : gmap string attr) : Prop :=
  map_Forall (λ k v, k ∈ text_columns ∧ is_str v = true) shib_user_params.

(** Every recognised key of the dictionary is a text or a boolean
    column, and its value a string. *)
Definition column_params (shib_user_params : gmap string attr) : Prop :=
  map_Forall (λ k v, k ∈ text_columns ++ boolean_columns ∧ is_str v = true)
    shib_user_params.

(** The row [user.save()] leaves in the table. *)
Definition saved (user : User) (σ : db) : db :=
  mkDb ((λ r, if decide (pk r = pk user) then to_db user else r)
          <$> auth_user σ)
       (auth_group σ) (auth_user_groups σ).

(** The field names of [django.contrib.auth.models.User], for the
    examples. *)
Definition auth_user_field_names : list string :=
  ["date_joined"; "email"; "first_name"; "groups"; "id"; "is_active";
   "is_staff"; "is_superuser"; "last_login"; "last_name"; "password";
   "user_permissions"; "username"].

(** A small database for the examples: alice is in groups A and B, bob
    in A. *)
Definition alice : User :=
  mkUser 1 {[ "username" := AStr "alice"; "email" := AStr "alice@example.org" ]}.

Definition bob : User :=
  mkUser 2 {[ "username" := AStr "bob"; "email" := AStr "bob@example.org" ]}.

Definition example_db : db :=
  mkDb [alice; bob] ["A"; "B"] [(1, "A"); (1, "B"); (2, "A")].

(** The same class with user creation switched off. *)
Definition NoCreateBackend : Backend :=
  mkBackend false inherited_clean_username inherited_configure_user.

(** A call of the Attribute Archiver. *)
Definition is_archive_call (e : event) : bool :=
  match e with
  | ArchiveAttributes _ _ => true
  | _ => false
  end.

(** A computation keeps the invariant [I] of the tables, whether it
    returns or raises. *)
Definition preserves {A} (I : db → Prop) (c : M A) : Prop :=
  ∀ σ, I σ → I (c σ).1.2.

(** The usernames in the user table, one per row that has one. *)
Definition usernames (rows : list User) : list attr :=
  omap (λ r, fields r !! "username") rows.

(** What the schema guarantees of [auth_user]: primary keys and
    usernames are unique. *)
Definition wf_users (rows : list User) : Prop :=
  NoDup (pk <$> rows) ∧ NoDup (usernames rows).

(** What it guarantees of [auth_group] and [auth_user_groups]: no group
    name and no membership row occurs twice. *)
Definition wf_groups (σ : db) : Prop :=
  NoDup (auth_group σ) ∧ NoDup (auth_user_groups σ).

(** * Properties *)

(** ** The monad *)

Lemma bind_run {A B} (c : M A) (f : A → M B) (σ : db) :
  (c ≫= f) σ =
  match c σ with
  | (Return a, σ1, ev1) =>
      match f a σ1 with
      | (r, σ2, ev2) => (r, σ2, ev1 ++ ev2)
      end
  | (Raise e, σ1, ev1) => (Raise e, σ1, ev1)
  end.
Proof. reflexivity. Qed.

Lemma bind_Return {A B} (c : M A) (f : A → M B) σ a σ1 ev1 r σ2 ev2 :
  c σ = (Return a, σ1, ev1) → f a σ1 = (r, σ2, ev2) →
  (c ≫= f) σ = (r, σ2, ev1 ++ ev2).
Proof. intros Hc Hf. by rewrite bind_run, Hc, Hf. Qed.

Lemma bind_Raise {A B} (c : M A) (f : A → M B) σ e σ1 ev1 :
  c σ = (Raise e, σ1, ev1) → (c ≫= f) σ = (Raise e, σ1, ev1).
Proof. intros Hc. by rewrite bind_run, Hc. Qed.

Lemma try_except_Return {A} (c h : M A) e σ a σ1 ev1 :
  c σ = (Return a, σ1, ev1) → try_except c e h σ = (Return a, σ1, ev1).
Proof. intros Hc. unfold try_except. by rewrite Hc. Qed.

Lemma try_except_caught {A} (c h : M A) e σ σ1 ev1 r σ2 ev2 :
  c σ = (Raise e, σ1, ev1) → h σ1 = (r, σ2, ev2) →
  try_except c e h σ = (r, σ2, ev1 ++ ev2).
Proof.
  intros Hc Hh. unfold try_except. rewrite Hc, Hh. by rewrite decide_True.
Qed.

Lemma try_except_passed {A} (c h : M A) e e' σ σ1 ev1 :
  c σ = (Raise e', σ1, ev1) → e' ≠ e →
  try_except c e h σ = (Raise e', σ1, ev1).
Proof.
  intros Hc Hne. unfold try_except. rewrite Hc. by rewrite decide_False.
Qed.

(** ** Group synchronisation (lines 63-73) *)

Lemma add_body_run user g used σ :
  ∃ σ' ev,
    add_body user g used σ = (Return (used ++ [g]), σ', ev) ∧
    auth_user σ' = auth_user σ ∧
    (∀ r, r ∈ auth_user_groups σ' ↔ r ∈ auth_user_groups σ ∨ r = (pk user, g)) ∧
    (∀ h, h ∈ auth_group σ' ↔ h ∈ auth_group σ ∨ h = g) ∧
    Forall (λ e, is_group_sync_event e = true) ev ∧
    (g ∈ auth_group σ → (pk user, g) ∈ auth_user_groups σ →
     σ' = σ ∧ Forall (λ e, is_store_write e = false) ev).
Proof.
  cbv beta. rewrite bind_run. unfold Group_objects_get_or_create.
  destruct (decide (g ∈ auth_group σ)) as [Hg|Hg];
    rewrite bind_run; unfold user_set_add; simpl;
    match goal with |- context [decide (?x ∈ ?l)] =>
      destruct (decide (x ∈ l)) as [Hm|Hm] end; simpl;
    eexists _, _; (split; [reflexivity|]); simpl;
    repeat split; try (intros; set_solver);
    try (repeat constructor; done); try done.
  all: try (intros r; rewrite ?elem_of_app, ?list_elem_of_singleton; set_solver).
  all: try (intros h; rewrite ?elem_of_app, ?list_elem_of_singleton; set_solver).
Qed.

(** The first loop never raises: it returns the names it walked
    through, adds exactly the missing rows, and writes nothing when the
    rows are all there. *)
Lemma add_loop_run user gs : ∀ used σ,
  ∃ σ' ev,
    for_fold gs (add_body user) used σ = (Return (used ++ gs), σ', ev) ∧
    auth_user σ' = auth_user σ ∧
    (∀ r, r ∈ auth_user_groups σ' ↔
          r ∈ auth_user_groups σ ∨ (r.1 = pk user ∧ r.2 ∈ gs)) ∧
    (∀ h, h ∈ auth_group σ' ↔ h ∈ auth_group σ ∨ h ∈ gs) ∧
    Forall (λ e, is_group_sync_event e = true) ev ∧
    ((∀ g, g ∈ gs → g ∈ auth_group σ ∧ (pk user, g) ∈ auth_user_groups σ) →
     σ' = σ ∧ Forall (λ e, is_store_write e = false) ev).
Proof.
  induction gs as [|g gs IH]; intros used σ.
  - exists σ, []. simpl. rewrite app_nil_r.
    repeat split; try done; try set_solver.
  - destruct (add_body_run user g used σ)
      as (σ1 & ev1 & Hrun1 & Hu1 & Hm1 & Hg1 & Hev1 & Hid1).
    destruct (IH (used ++ [g]) σ1)
      as (σ2 & ev2 & Hrun2 & Hu2 & Hm2 & Hg2 & Hev2 & Hid2).
    exists σ2, (ev1 ++ ev2). split.
    { cbn [for_fold]. erewrite bind_Return; [|exact Hrun1|exact Hrun2].
      by rewrite <-app_assoc. }
    split; [congruence|]. split.
    { intros [p h]. rewrite Hm2, Hm1, elem_of_cons. simpl.
      assert ((p, h) = (pk user, g) ↔ p = pk user ∧ h = g) as ->
        by (split; [intros [= -> ->]|intros [-> ->]]; done).
      tauto. }
    split.
    { intros h. rewrite Hg2, Hg1, elem_of_cons. tauto. }
    split; [by apply Forall_app|].
    intros Hall.
    destruct (Hall g) as [Ha Hb]; [left|].
    destruct (Hid1 Ha Hb) as [-> Hw1].
    destruct Hid2 as [-> Hw2].
    { intros h Hh. apply Hall. by right. }
    split; [done|by apply Forall_app].
Qed.

(** The second loop deletes exactly the rows of the user in the groups it
    is given. *)
Lemma remove_loop_run user stale : ∀ σ,
  ∃ σ' ev,
    for_each stale (λ group, user_set_remove group user) σ = (Return (), σ', ev) ∧
    auth_user σ' = auth_user σ ∧
    auth_group σ' = auth_group σ ∧
    (∀ r, r ∈ auth_user_groups σ' ↔
          r ∈ auth_user_groups σ ∧ ¬ (r.1 = pk user ∧ r.2 ∈ stale)) ∧
    Forall (λ e, is_group_sync_event e = true) ev ∧
    (stale = [] → σ' = σ ∧ ev = []).
Proof.
  induction stale as [|g stale IH]; intros σ.
  - exists σ, []. repeat split; try done; set_solver.
  - set (σ1 := mkDb (auth_user σ) (auth_group σ)
                 (filter (λ r, r ≠ (pk user, g)) (auth_user_groups σ))).
    destruct (IH σ1) as (σ2 & ev2 & Hrun2 & Hu2 & Hg2 & Hm2 & Hev2 & _).
    exists σ2, (MembershipDelete (pk user) g :: ev2). split.
    { cbn [for_each].
      change (MembershipDelete (pk user) g :: ev2)
        with ([MembershipDelete (pk user) g] ++ ev2).
      eapply bind_Return; [reflexivity|exact Hrun2]. }
    split; [done|]. split; [done|]. split.
    { intros [p h]. rewrite Hm2. subst σ1. simpl.
      rewrite list_elem_of_filter, elem_of_cons.
      split.
      - intros [[Hne ?] Hn]. split; [done|]. intros [-> [->|?]]; [done|].
        apply Hn. done.
      - intros [? Hn]. split; [split; [|done]|].
        + intros [= -> ->]. apply Hn. auto.
        + intros [-> ?]. apply Hn. auto. }
    split; [by constructor|]. done.
Qed.

Lemma groups_of_elem σ p g : g ∈ groups_of σ p ↔ (p, g) ∈ auth_user_groups σ.
Proof.
  unfold groups_of. rewrite elem_of_list_to_set, list_elem_of_fmap. split.
  - intros ([q h] & -> & [Hq Hin]%list_elem_of_filter). simpl in *. by subst.
  - intros Hin. exists (p, g). split; [done|]. by apply list_elem_of_filter.
Qed.

(** Lines 63-73 when [groups] can be iterated: the method cannot fail
    there, the user ends in exactly the groups walked through, the user
    table is not touched, and on a state already in sync nothing is
    written. *)
Lemma sync_groups_run (groups : attr) (gs : list string) user σ :
  iter (Some groups) σ = (Return gs, σ, []) →
  ∃ σ' ev,
    sync_groups (Some groups) user σ = (Return (), σ', ev) ∧
    auth_user σ' = auth_user σ ∧
    groups_of σ' (pk user) = list_to_set gs ∧
    (∀ p, p ≠ pk user → groups_of σ' p = groups_of σ p) ∧
    synced (pk user) gs σ' ∧
    Forall (λ e, is_group_sync_event e = true) ev ∧
    (synced (pk user) gs σ →
     σ' = σ ∧ Forall (λ e, is_store_write e = false) ev).
Proof.
  intros Hiter.
  destruct (add_loop_run user gs [] σ)
    as (σ1 & ev1 & Hrun1 & Hu1 & Hm1 & Hg1 & Hev1 & Hid1).
  set (stale := filter (λ g, g ∉ gs)
                  ((filter (λ r, r.1 = pk user) (auth_user_groups σ1)).*2)).
  destruct (remove_loop_run user stale σ1)
    as (σ2 & ev2 & Hrun2 & Hu2 & Hg2 & Hm2 & Hev2 & Hid2).
  assert (Hstale : ∀ g, g ∈ stale ↔ (pk user, g) ∈ auth_user_groups σ1 ∧ g ∉ gs).
  { intros g. unfold stale. rewrite list_elem_of_filter.
    pose proof (groups_of_elem σ1 (pk user) g) as Hgo.
    unfold groups_of in Hgo. rewrite elem_of_list_to_set in Hgo. tauto. }
  exists σ2, (ev1 ++ MembershipSelect (pk user) :: ev2). split.
  { unfold sync_groups.
    change (ev1 ++ MembershipSelect (pk user) :: ev2)
      with ([] ++ ev1 ++ [MembershipSelect (pk user)] ++ ev2).
    eapply bind_Return; [exact Hiter|].
    eapply bind_Return; [exact Hrun1|].
    eapply bind_Return; [reflexivity|exact Hrun2]. }
  split; [congruence|].
  assert (Hin2 : ∀ p g, (p, g) ∈ auth_user_groups σ2 ↔
            (p ≠ pk user ∧ (p, g) ∈ auth_user_groups σ) ∨ (p = pk user ∧ g ∈ gs)).
  { intros p g. rewrite Hm2, Hm1. simpl. rewrite Hstale, Hm1. simpl.
    destruct (decide (p = pk user)) as [->|Hp];
      destruct (decide (g ∈ gs)); tauto. }
  split.
  { apply set_eq. intros g.
    rewrite groups_of_elem, elem_of_list_to_set, Hin2. tauto. }
  split.
  { intros p Hp. apply set_eq. intros g. rewrite !groups_of_elem, Hin2. tauto. }
  split.
  { split.
    - intros g Hg. split; [rewrite Hg2, Hg1; auto|]. apply Hin2. auto.
    - intros [p g] Hr Hp. simpl in *. apply Hin2 in Hr. tauto. }
  split.
  { apply Forall_app. split; [done|]. by constructor. }
  intros [Hs1 Hs2].
  destruct (Hid1 Hs1) as [-> Hw1].
  assert (stale = []) as Hnil.
  { apply elem_of_nil_inv. intros g [Hin Hn]%Hstale.
    apply Hn. by apply (Hs2 (pk user, g)). }
  destruct (Hid2 Hnil) as [-> ->].
  split; [done|]. apply Forall_app. split; [done|]. by repeat constructor.
Qed.

(** Line 66 with [groups = None]: [TypeError], before any table is read
    or written. *)
Lemma sync_groups_None user σ :
  sync_groups None user σ = (Raise TypeError, σ, []).
Proof. reflexivity. Qed.

(** ** The recognised fields (line 43) and the update loop (lines 53-58) *)

Lemma shib_user_params_lookup fn (shib_meta : gmap string attr) k :
  shib_user_params_of fn shib_meta !! k =
  if decide (k ∈ fn) then shib_meta !! k else None.
Proof.
  unfold shib_user_params_of. induction fn as [|a fn IH]; simpl.
  - apply lookup_empty.
  - change (list_omap _ _ ?f fn) with (omap f fn).
    destruct (shib_meta !! a) as [v|] eqn:Ha; simpl.
    + rewrite lookup_insert. destruct (decide (a = k)) as [->|Hk].
      * rewrite decide_True by left. by rewrite Ha.
      * rewrite IH. destruct (decide (k ∈ fn)) as [Hin|Hin].
        -- by rewrite decide_True by (by right).
        -- rewrite decide_False; [done|]. rewrite elem_of_cons. naive_solver.
    + rewrite IH. destruct (decide (k ∈ fn)) as [Hin|Hin].
      * by rewrite decide_True by (by right).
      * destruct (decide (k = a)) as [->|Hk].
        -- rewrite decide_True by left. by rewrite Ha.
        -- rewrite decide_False; [done|]. rewrite elem_of_cons. naive_solver.
Qed.

Lemma shib_user_params_subseteq fn (shib_meta : gmap string attr) :
  shib_user_params_of fn shib_meta ⊆ shib_meta.
Proof.
  apply map_subseteq_spec. intros k v. rewrite shib_user_params_lookup.
  by case_decide.
Qed.

Lemma row_matches_subseteq q u : row_matches q u ↔ q ⊆ fields u.
Proof. unfold row_matches. by rewrite map_subseteq_spec. Qed.

Lemma next_pk_fresh rows : next_pk rows ∉ pk <$> rows.
Proof. apply max_list_not_elem_of_gt. unfold next_pk. lia. Qed.

(** ** What the columns store *)

Lemma lookup_to_db user k :
  fields (to_db user) !! k = prep_value k <$> fields user !! k.
Proof.
  unfold to_db. simpl. rewrite map_lookup_imap.
  by destruct (fields user !! k).
Qed.

Lemma prep_value_text k v : k ∉ boolean_columns → prep_value k v = v.
Proof. intros Hk. unfold prep_value. by rewrite decide_False. Qed.

Lemma text_not_boolean k : k ∈ text_columns → k ∉ boolean_columns.
Proof.
  unfold text_columns, boolean_columns. intros Hk Hb.
  repeat (apply elem_of_cons in Hk as [->|Hk];
          [revert Hb; refine (bool_decide_unpack _ _); by vm_compute|]).
  by apply elem_of_nil in Hk.
Qed.

Lemma to_db_username user :
  fields (to_db user) !! "username" = fields user !! "username".
Proof.
  rewrite lookup_to_db.
  destruct (fields user !! "username") as [v|]; [|done]. simpl.
  rewrite prep_value_text; [done|].
  refine (bool_decide_unpack _ _). by vm_compute.
Qed.

Lemma to_db_text user k v :
  k ∈ text_columns → fields user !! k = Some v → fields (to_db user) !! k = Some v.
Proof.
  intros Hk Hv. rewrite lookup_to_db, Hv. simpl.
  by rewrite prep_value_text by by apply text_not_boolean.
Qed.

Lemma text_params_column_params (shib_user_params : gmap string attr) :
  text_params shib_user_params → column_params shib_user_params.
Proof.
  intros Ht k v Hkv. destruct (Ht k v Hkv) as [Hk Hv]. split; [|done].
  apply elem_of_app. by left.
Qed.

(** A row keeps the text values its object holds. *)
Lemma row_matches_to_db (shib_user_params : gmap string attr) user :
  text_params shib_user_params →
  row_matches shib_user_params user → row_matches shib_user_params (to_db user).
Proof.
  intros Ht Hm k v Hk. destruct (Ht k v Hk) as [Hc _].
  apply to_db_text; [done|]. by apply (Hm k v).
Qed.

Lemma row_matches_by_username_to_db username user :
  row_matches {[ "username" := AStr username ]} (to_db user) ↔
  row_matches {[ "username" := AStr username ]} user.
Proof.
  unfold row_matches. rewrite !map_Forall_singleton. by rewrite to_db_username.
Qed.

(** The loop sets every recognised field whose stored value differs,
    whatever the order of [items()], and [updated] tells whether it set
    one. *)
Lemma update_fields_eq (shib_user_params : gmap string attr) user :
  update_fields shib_user_params user =
  (mkUser (pk user) (shib_user_params ∪ fields user),
   bool_decide (¬ row_matches shib_user_params user)).
Proof.
  unfold update_fields.
  pose (P := λ (r : User * bool) (m : gmap string attr),
    r = (mkUser (pk user) (m ∪ fields user),
         bool_decide (¬ row_matches m user))).
  apply (map_fold_weak_ind P); unfold P; clear P.
  - rewrite (left_id_L ∅ (∪)). by destruct user.
  - intros k v m [u b] Hk [= -> ->]. simpl.
    assert (Hold : (m ∪ fields user) !! k = fields user !! k).
    { by rewrite lookup_union_r. }
    rewrite Hold. case_decide as Hd.
    + unfold setattr. simpl. f_equal; [by rewrite insert_union_l|].
      symmetry. apply bool_decide_eq_true_2. intros Hall.
      apply Hd, (Hall k v), lookup_insert_eq.
    + f_equal.
      * f_equal. rewrite <-insert_union_l. symmetry. apply insert_id.
        by rewrite Hold.
      * apply bool_decide_ext. unfold row_matches.
        rewrite map_Forall_insert by done. tauto.
Qed.

Lemma update_fields_recognised (shib_user_params : gmap string attr) user k v :
  shib_user_params !! k = Some v →
  fields (update_fields shib_user_params user).1 !! k = Some v.
Proof.
  intros Hk. rewrite update_fields_eq. simpl. by apply lookup_union_Some_l.
Qed.

Lemma update_fields_unchanged (shib_user_params : gmap string attr) user :
  row_matches shib_user_params user →
  update_fields shib_user_params user = (user, false).
Proof.
  intros Hm. rewrite update_fields_eq. f_equal.
  - destruct user as [p f]. simpl. f_equal.
    apply map_subseteq_union. apply row_matches_subseteq in Hm. exact Hm.
  - apply bool_decide_eq_false_2. tauto.
Qed.

(** ** [get_or_create] and the four ways it can end *)

Lemma get_found (A : Type) (k : User → A) q σ u0 :
  filter (row_matches q) (auth_user σ) = [u0] →
  (u ← User_objects_get q; mret (k u)) σ = (Return (k u0), σ, [UserSelect q]).
Proof.
  intros Hf. change [UserSelect q] with ([UserSelect q] ++ []).
  eapply bind_Return; [|reflexivity]. unfold User_objects_get. by rewrite Hf.
Qed.

Lemma get_missing (A : Type) (k : User → A) q σ :
  filter (row_matches q) (auth_user σ) = [] →
  (u ← User_objects_get q; mret (k u)) σ = (Raise DoesNotExist, σ, [UserSelect q]).
Proof.
  intros Hf. eapply bind_Raise. unfold User_objects_get. by rewrite Hf.
Qed.

Lemma get_ambiguous (A : Type) (k : User → A) q σ u0 u1 rest :
  filter (row_matches q) (auth_user σ) = u0 :: u1 :: rest →
  (u ← User_objects_get q; mret (k u)) σ =
  (Raise MultipleObjectsReturned, σ, [UserSelect q]).
Proof.
  intros Hf. eapply bind_Raise. unfold User_objects_get. by rewrite Hf.
Qed.

Lemma get_or_create_found username defaults σ u0 :
  filter (row_matches (by_username username)) (auth_user σ) = [u0] →
  User_objects_get_or_create username defaults σ =
  (Return (u0, false), σ, [UserSelect (by_username username)]).
Proof.
  intros Hf. unfold User_objects_get_or_create.
  eapply try_except_Return. by apply (get_found _ (λ u, (u, false))).
Qed.

Lemma get_or_create_ambiguous username defaults σ u0 u1 rest :
  filter (row_matches (by_username username)) (auth_user σ) = u0 :: u1 :: rest →
  User_objects_get_or_create username defaults σ =
  (Raise MultipleObjectsReturned, σ, [UserSelect (by_username username)]).
Proof.
  intros Hf. unfold User_objects_get_or_create.
  eapply try_except_passed; [|done].
  by eapply (get_ambiguous _ (λ u, (u, false))).
Qed.

Lemma get_or_create_refused username defaults σ :
  filter (row_matches (by_username username)) (auth_user σ) = [] →
  username_taken (auth_user σ) None (defaults ∪ by_username username) →
  User_objects_get_or_create username defaults σ =
  (Raise IntegrityError, σ,
   [UserSelect (by_username username);
    UserInsertRejected (defaults ∪ by_username username);
    UserSelect (by_username username)]).
Proof.
  intros Hf Ht. unfold User_objects_get_or_create.
  change [UserSelect ?q; ?e; UserSelect ?q]
    with ([UserSelect q] ++ [e] ++ [UserSelect q] ++ []).
  eapply try_except_caught; [by apply (get_missing _ (λ u, (u, false)))|].
  eapply try_except_caught.
  { eapply bind_Raise. unfold User_insert. by rewrite decide_True. }
  eapply try_except_caught; [by apply (get_missing _ (λ u, (u, false)))|].
  reflexivity.
Qed.

Lemma get_or_create_created username defaults σ :
  filter (row_matches (by_username username)) (auth_user σ) = [] →
  ¬ username_taken (auth_user σ) None (defaults ∪ by_username username) →
  let obj := mkUser (next_pk (auth_user σ)) (defaults ∪ by_username username) in
  User_objects_get_or_create username defaults σ =
  (Return (obj, true),
   mkDb (auth_user σ ++ [to_db obj]) (auth_group σ) (auth_user_groups σ),
   [UserSelect (by_username username); UserInsert obj]).
Proof.
  intros Hf Ht obj. unfold User_objects_get_or_create.
  change [UserSelect ?q; ?e] with ([UserSelect q] ++ [e] ++ []).
  eapply try_except_caught; [by apply (get_missing _ (λ u, (u, false)))|].
  eapply try_except_Return.
  eapply bind_Return; [|reflexivity].
  unfold User_insert. by rewrite decide_False.
Qed.

(** ** The method from [get_or_create] on *)

Lemma iter_Some groups σ :
  iterable groups →
  iter (Some groups) σ = (Return (iter_values groups), σ, []).
Proof. by destruct groups. Qed.

Lemma not_iterable_cases (groups : option attr) :
  not_iterable groups ∨ ∃ g, groups = Some g ∧ iterable g.
Proof. destruct groups as [[]|]; simpl; eauto; right; by eexists. Qed.

Lemma after_user_None user shib_meta σ :
  after_user None user shib_meta σ = (Raise TypeError, σ, []).
Proof. reflexivity. Qed.

Lemma after_user_raises groups user shib_meta σ :
  not_iterable groups →
  after_user groups user shib_meta σ = (Raise TypeError, σ, []).
Proof. by destruct groups as [[]|]. Qed.

Lemma after_user_Some groups user shib_meta σ :
  iterable groups →
  ∃ σ' ev,
    after_user (Some groups) user shib_meta σ =
      (Return (Some user), σ', ev ++ [ArchiveAttributes user shib_meta]) ∧
    auth_user σ' = auth_user σ ∧
    groups_of σ' (pk user) = list_to_set (iter_values groups) ∧
    (∀ p, p ≠ pk user → groups_of σ' p = groups_of σ p) ∧
    synced (pk user) (iter_values groups) σ' ∧
    Forall (λ e, is_group_sync_event e = true) ev ∧
    (synced (pk user) (iter_values groups) σ →
     σ' = σ ∧ Forall (λ e, is_store_write e = false) ev).
Proof.
  intros Hit.
  destruct (sync_groups_run groups (iter_values groups) user σ
              (iter_Some _ _ Hit))
    as (σ' & ev & Hrun & Hrest).
  exists σ', ev. split; [|exact Hrest].
  unfold after_user. eapply bind_Return; [exact Hrun|]. reflexivity.
Qed.

Section Reconcile.

Variable self : Backend.
Hypothesis Hcreate : create_unknown_user self = true.
Variables (username : string) (groups : option attr).
Variables (shib_meta shib_user_params : gmap string attr).
Variable σ : db.

Lemma reconcile_found u0 :
  filter (row_matches (by_username username)) (auth_user σ) = [u0] →
  let u1 := mkUser (pk u0) (shib_user_params ∪ fields u0) in
  reconcile self username groups shib_meta shib_user_params σ =
  if decide (row_matches shib_user_params u0) then
    prepend [UserSelect (by_username username)]
      (after_user groups u0 shib_meta σ)
  else if decide (username_taken (auth_user σ) (Some (pk u0)) (fields u1)) then
    (Raise IntegrityError, σ,
     [UserSelect (by_username username); UserUpdateRejected u1])
  else
    prepend [UserSelect (by_username username); UserUpdate u1]
      (after_user groups u1 shib_meta (saved u1 σ)).
Proof.
  intros Hf u1. unfold reconcile. rewrite Hcreate.
  rewrite bind_run, (get_or_create_found _ _ _ _ Hf). cbv beta iota.
  rewrite bind_run.
  destruct (decide (row_matches shib_user_params u0)) as [Hm|Hm].
  - rewrite (update_fields_unchanged _ _ Hm). simpl.
    unfold after_user, prepend.
    destruct (sync_groups groups u0 σ) as [[[[]|e] σ1] ev1] eqn:Hs;
      rewrite !bind_run, Hs; simpl; [|done].
    by rewrite ?app_nil_r.
  - rewrite update_fields_eq.
    rewrite bool_decide_eq_true_2 by done. fold u1.
    rewrite bind_run. unfold User_save.
    destruct (decide (username_taken (auth_user σ) (Some (pk u1)) (fields u1)))
      as [Ht|Ht]; simpl.
    + by rewrite decide_True by done.
    + rewrite decide_False by done.
      unfold after_user, prepend, saved. simpl.
      match goal with |- context [(?c ≫= ?f) ?s] =>
        by destruct ((c ≫= f) s) as [[r σ2] ev2] end.
Qed.

Lemma reconcile_ambiguous u0 u1 rest :
  filter (row_matches (by_username username)) (auth_user σ) = u0 :: u1 :: rest →
  reconcile self username groups shib_meta shib_user_params σ =
  (Raise MultipleObjectsReturned, σ, [UserSelect (by_username username)]).
Proof.
  intros Hf. unfold reconcile. rewrite Hcreate.
  by rewrite bind_run, (get_or_create_ambiguous _ _ _ _ _ _ Hf).
Qed.

Lemma reconcile_refused :
  filter (row_matches (by_username username)) (auth_user σ) = [] →
  username_taken (auth_user σ) None (shib_user_params ∪ by_username username) →
  reconcile self username groups shib_meta shib_user_params σ =
  (Raise IntegrityError, σ,
   [UserSelect (by_username username);
    UserInsertRejected (shib_user_params ∪ by_username username);
    UserSelect (by_username username)]).
Proof.
  intros Hf Ht. unfold reconcile. rewrite Hcreate.
  by rewrite bind_run, (get_or_create_refused _ _ _ Hf Ht).
Qed.

Lemma reconcile_created :
  filter (row_matches (by_username username)) (auth_user σ) = [] →
  ¬ username_taken (auth_user σ) None (shib_user_params ∪ by_username username) →
  let obj := mkUser (next_pk (auth_user σ))
               (shib_user_params ∪ by_username username) in
  let σ1 := mkDb (auth_user σ ++ [to_db obj]) (auth_group σ)
              (auth_user_groups σ) in
  reconcile self username groups shib_meta shib_user_params σ =
  prepend [UserSelect (by_username username); UserInsert obj; ConfigureUser obj]
    (after_user groups (configure_user self obj σ1).1 shib_meta
       (configure_user self obj σ1).2).
Proof.
  intros Hf Ht obj σ1. unfold reconcile. rewrite Hcreate.
  rewrite bind_run, (get_or_create_created _ _ _ Hf Ht). cbv beta iota zeta.
  fold obj σ1. rewrite bind_run. unfold self_configure_user.
  destruct (configure_user self obj σ1) as [u' σ2] eqn:Hc. simpl.
  unfold after_user, prepend.
  destruct (sync_groups groups u' σ2) as [[[[]|e] σ3] ev3] eqn:Hs;
    rewrite !bind_run, Hs; simpl; [|done].
  by rewrite ?app_nil_r.
Qed.

End Reconcile.

(** ** [authenticate] as a whole *)

(** Lines 32-43: for a truthy [remote_user] the dictionary loses its
    [groups] key, and the rest runs on what is left. *)
Lemma authenticate_run fn self ru (shib_meta : gmap string attr) σ :
  ru ≠ "" →
  authenticate fn self (Some ru) shib_meta σ =
  let rest := delete "groups" shib_meta in
  let x := reconcile self (clean_username self ru) (shib_meta !! "groups")
             rest (shib_user_params_of fn rest) σ in
  mkOutcome rest x.1.1 x.1.2 x.2.
Proof.
  intros Hru. unfold authenticate, truthy.
  rewrite bool_decide_eq_false_2 by done. simpl.
  destruct (shib_meta !! "groups") as [g|] eqn:Hg.
  - by destruct (reconcile _ _ _ _ _ _) as [[r σ'] ev].
  - rewrite (delete_id _ _ Hg).
    by destruct (reconcile _ _ _ _ _ _) as [[r σ'] ev].
Qed.

Lemma group_sync_events_no_persist ev :
  Forall (λ e, is_group_sync_event e = true) ev →
  filter (λ e, is_persist_call e = true) ev = [].
Proof.
  induction 1 as [|e ev He _ IH]; [done|].
  rewrite filter_cons_False; [done|]. by destruct e.
Qed.

Lemma group_sync_events_no_archive ev :
  Forall (λ e, is_group_sync_event e = true) ev →
  filter (λ e, is_archive_call e = true) ev = [].
Proof.
  induction 1 as [|e ev He _ IH]; [done|].
  rewrite filter_cons_False; [done|]. by destruct e.
Qed.


(** ** Lookup without creation (lines 77-81) *)

Lemma reconcile_no_create self username groups
    (shib_meta shib_user_params : gmap string attr) σ :
  create_unknown_user self = false →
  reconcile self username groups shib_meta shib_user_params σ =
  (match filter (row_matches shib_user_params) (auth_user σ) with
   | [] => Return None
   | [u0] => Return (Some u0)
   | _ :: _ :: _ => Raise MultipleObjectsReturned
   end, σ, [UserSelect shib_user_params]).
Proof.
  intros Hno. unfold reconcile. rewrite Hno.
  destruct (filter (row_matches shib_user_params) (auth_user σ))
    as [|u0 [|u1 rest]] eqn:Hf.
  - change [UserSelect shib_user_params]
      with ([UserSelect shib_user_params] ++ []).
    eapply try_except_caught; [|reflexivity]. by apply (get_missing _ Some).
  - eapply try_except_Return. by apply (get_found _ Some).
  - eapply try_except_passed; [|done]. by eapply (get_ambiguous _ Some).
Qed.

(** C8: for a [remote_user] that is [None] or the empty string,
    [authenticate] returns [None] at once: the tables are the same, no
    read, write, hook or archiver call is made, and the caller's
    dictionary keeps every key, whatever the dictionary and the backend
    (so whatever [create_unknown_user]). *)
Theorem C8_falsy_username_returns_absent fn self remote_user
    (shib_meta : gmap string attr) σ :
  truthy remote_user = false →
  authenticate fn self remote_user shib_meta σ =
  mkOutcome shib_meta (Return None) σ [].
Proof.
  intros Hf. unfold authenticate. destruct remote_user as [s|]; [|done].
  by rewrite Hf.
Qed.

Lemma C8_witness :
  truthy (Some "") = false ∧
  authenticate auth_user_field_names NoCreateBackend (Some "")
    {[ "groups" := AList ["A"]; "email" := AStr "x@example.org" ]} example_db =
  mkOutcome {[ "groups" := AList ["A"]; "email" := AStr "x@example.org" ]}
    (Return None) example_db [].
Proof.
  split; [reflexivity|].
  apply (C8_falsy_username_returns_absent auth_user_field_names
           NoCreateBackend (Some "")). reflexivity.
Defined.

(** C7: with [create_unknown_user = False] and a non-empty
    [remote_user], [authenticate] makes exactly one access to the store,
    a lookup whose filter is all the recognised fields at once, and the
    tables are unchanged.  When the recognised fields are text columns
    holding strings, the lookup compares them as the table stores them:
    when no row matches the method returns [None] ([DoesNotExist] is
    caught), and when exactly one row matches every recognised field it
    returns that row. *)
Theorem C7_lookup_without_creation fn self ru (shib_meta : gmap string attr) σ :
  ru ≠ "" →
  create_unknown_user self = false →
  let out := authenticate fn self (Some ru) shib_meta σ in
  let shib_user_params := shib_user_params_of fn (delete "groups" shib_meta) in
  events out = [UserSelect shib_user_params] ∧
  db_after out = σ ∧
  (text_params shib_user_params →
   (filter (row_matches shib_user_params) (auth_user σ) = [] →
    returned out = Return None) ∧
   (∀ u0, filter (row_matches shib_user_params) (auth_user σ) = [u0] →
    returned out = Return (Some u0))).
Proof.
  intros Hru Hno out params. subst out.
  rewrite authenticate_run by done. cbv zeta.
  rewrite (reconcile_no_create _ _ _ _ _ _ Hno). fold params. simpl.
  split; [done|]. split; [done|]. intros _. split.
  - by intros ->.
  - by intros u0 ->.
Qed.

Lemma C7_witness :
  let shib_meta : gmap string attr :=
    {[ "username" := AStr "bob"; "email" := AStr "bob@example.org" ]} in
  let out := authenticate auth_user_field_names NoCreateBackend (Some "bob")
               shib_meta example_db in
  events out = [UserSelect shib_meta] ∧
  db_after out = example_db ∧
  returned out = Return (Some bob).
Proof.
  cbv zeta.
  destruct (C7_lookup_without_creation auth_user_field_names NoCreateBackend
              "bob" {[ "username" := AStr "bob"; "email" := AStr "bob@example.org" ]}
              example_db) as (Hev & Hdb & Hret);
    [done|reflexivity|].
  destruct Hret as [_ Hone];
    [refine (bool_decide_unpack _ _); by vm_compute|].
  split; [|split; [exact Hdb|]].
  - rewrite Hev. by vm_compute.
  - apply Hone. by vm_compute.
Defined.

(** C10: with [create_unknown_user = False] the lookup filters by the
    recognised fields of the dictionary only: the cleaned username is
    not part of the query, and two different remote users with the same
    dictionary get the same outcome.  So there are inputs without a
    [username] key for which the returned row holds another username
    than the asserted one. *)
Theorem C10_lookup_ignores_username :
  (∀ fn self ru ru' (shib_meta : gmap string attr) σ,
     ru ≠ "" → ru' ≠ "" → create_unknown_user self = false →
     authenticate fn self (Some ru) shib_meta σ =
     authenticate fn self (Some ru') shib_meta σ ∧
     events (authenticate fn self (Some ru) shib_meta σ) =
     [UserSelect (shib_user_params_of fn (delete "groups" shib_meta))]) ∧
  (∃ fn self ru (shib_meta : gmap string attr) σ user,
     ru ≠ "" ∧ create_unknown_user self = false ∧
     shib_meta !! "username" = None ∧
     returned (authenticate fn self (Some ru) shib_meta σ) = Return (Some user) ∧
     fields user !! "username" ≠ Some (AStr (clean_username self ru))).
Proof.
  split.
  - intros fn self ru ru' shib_meta σ Hru Hru' Hno.
    rewrite !authenticate_run by done. cbv zeta.
    by rewrite !(reconcile_no_create _ _ _ _ _ _ Hno).
  - exists auth_user_field_names, NoCreateBackend, "alice",
      ({[ "email" := AStr "bob@example.org" ]} : gmap string attr),
      example_db, bob.
    split; [done|]. split; [done|]. split; [done|]. split; [|done].
    by vm_compute.
Qed.

(** ** Creation enabled, [groups] present (lines 47-75) *)

Lemma row_matches_by_username r username :
  row_matches (by_username username) r ↔
  fields r !! "username" = Some (AStr username).
Proof. unfold row_matches. by rewrite map_Forall_singleton. Qed.

Lemma found_elem q rows (u0 r : User) :
  filter (row_matches q) rows = [u0] → r ∈ rows → row_matches q r → r = u0.
Proof.
  intros Hf Hin Hm.
  assert (r ∈ filter (row_matches q) rows) as Hr by by apply list_elem_of_filter.
  rewrite Hf in Hr. by apply list_elem_of_singleton in Hr.
Qed.

Lemma found_in q rows (u0 : User) :
  filter (row_matches q) rows = [u0] → u0 ∈ rows ∧ row_matches q u0.
Proof.
  intros Hf. assert (u0 ∈ filter (row_matches q) rows) as Hr
    by (rewrite Hf; left).
  apply list_elem_of_filter in Hr. tauto.
Qed.

(** When the dictionary does not assert another username than the one
    looked up, the unique index has nothing to refuse. *)
Lemma insert_not_refused (defaults : gmap string attr) username rows :
  filter (row_matches (by_username username)) rows = [] →
  defaults !! "username" = None ∨ defaults !! "username" = Some (AStr username) →
  ¬ username_taken rows None (defaults ∪ by_username username).
Proof.
  intros Hf Hd (r & Hin & _ & _ & Hname)%Exists_exists.
  assert ((defaults ∪ by_username username) !! "username" = Some (AStr username))
    as Hu.
  { destruct Hd as [Hd|Hd].
    - rewrite lookup_union_r by done. apply lookup_singleton_eq.
    - by apply lookup_union_Some_l. }
  rewrite Hu in Hname. apply row_matches_by_username in Hname.
  assert (r ∈ filter (row_matches (by_username username)) rows) as Hr
    by by apply list_elem_of_filter.
  rewrite Hf in Hr. by apply elem_of_nil in Hr.
Qed.

Lemma save_not_refused (shib_user_params : gmap string attr) username rows u0 :
  filter (row_matches (by_username username)) rows = [u0] →
  shib_user_params !! "username" = None
  ∨ shib_user_params !! "username" = Some (AStr username) →
  ¬ username_taken rows (Some (pk u0)) (shib_user_params ∪ fields u0).
Proof.
  intros Hf Hd (r & Hin & Hpk & _ & Hname)%Exists_exists.
  destruct (found_in _ _ _ Hf) as [_ Hu0%row_matches_by_username].
  assert ((shib_user_params ∪ fields u0) !! "username" = Some (AStr username))
    as Hu.
  { destruct Hd as [Hd|Hd].
    - by rewrite lookup_union_r.
    - by apply lookup_union_Some_l. }
  rewrite Hu in Hname. apply row_matches_by_username in Hname.
  rewrite (found_elem _ _ _ _ Hf Hin Hname) in Hpk. done.
Qed.

Lemma prepend_after_user_Some evs groups user shib_meta σ :
  iterable groups →
  ∃ σ' ev,
    prepend evs (after_user (Some groups) user shib_meta σ) =
      (Return (Some user), σ', evs ++ ev ++ [ArchiveAttributes user shib_meta]) ∧
    auth_user σ' = auth_user σ ∧
    groups_of σ' (pk user) = list_to_set (iter_values groups) ∧
    synced (pk user) (iter_values groups) σ' ∧
    Forall (λ e, is_group_sync_event e = true) ev ∧
    (synced (pk user) (iter_values groups) σ →
     σ' = σ ∧ Forall (λ e, is_store_write e = false) ev).
Proof.
  intros Hit.
  destruct (after_user_Some groups user shib_meta σ Hit)
    as (σ' & ev & Hrun & Hu & Hg & _ & Hs & Hev & Hid).
  exists σ', ev. rewrite Hrun. done.
Qed.

(** With a [groups] entry that can be iterated, a user the method
    returns is in exactly the entry's groups; and the method does return
    when at most one row holds the username and the dictionary asserts
    no other username. *)
Lemma create_with_groups self username groups
    (shib_meta shib_user_params : gmap string attr) σ :
  create_unknown_user self = true →
  iterable groups →
  let x := reconcile self username (Some groups) shib_meta shib_user_params σ in
  let found := filter (row_matches (by_username username)) (auth_user σ) in
  (∀ user, x.1.1 = Return (Some user) →
     groups_of x.1.2 (pk user) = list_to_set (iter_values groups)) ∧
  ((List.length found ≤ 1)%nat →
   shib_user_params !! "username" = None
   ∨ shib_user_params !! "username" = Some (AStr username) →
   ∃ user, x.1.1 = Return (Some user) ∧
           groups_of x.1.2 (pk user) = list_to_set (iter_values groups) ∧
           ∀ u0, found = [u0] → pk user = pk u0).
Proof.
  intros Hcreate Hit x found. subst x found.
  destruct (filter (row_matches (by_username username)) (auth_user σ))
    as [|u0 [|u1 rest]] eqn:Hf.
  - destruct (decide (username_taken (auth_user σ) None
                        (shib_user_params ∪ by_username username))) as [Ht|Ht].
    + rewrite (reconcile_refused _ Hcreate _ _ _ _ _ Hf Ht). simpl.
      split; [done|].
      intros _ Hd. by destruct (insert_not_refused _ _ _ Hf Hd).
    + rewrite (reconcile_created _ Hcreate _ _ _ _ _ Hf Ht).
      match goal with |- context [prepend ?evs (after_user _ ?u _ ?s)] =>
        destruct (prepend_after_user_Some evs groups u shib_meta s Hit)
          as (σ' & ev & -> & _ & Hg & _) end.
      simpl. split; [by intros ? [= <-]|]. intros _ _.
      eexists. split; [done|]. split; [done|]. by intros ?.
  - rewrite (reconcile_found _ Hcreate _ _ _ _ _ _ Hf).
    destruct (decide (row_matches shib_user_params u0)) as [Hm|Hm].
    + match goal with |- context [prepend ?evs (after_user _ ?u _ ?s)] =>
        destruct (prepend_after_user_Some evs groups u shib_meta s Hit)
          as (σ' & ev & -> & _ & Hg & _) end.
      simpl. split; [by intros ? [= <-]|]. intros _ _.
      eexists. split; [done|]. split; [done|]. by intros ? [= ->].
    + destruct (decide (username_taken (auth_user σ) (Some (pk u0))
          (fields (mkUser (pk u0) (shib_user_params ∪ fields u0))))) as [Ht|Ht].
      * simpl. split; [done|].
        intros _ Hd. by destruct (save_not_refused _ _ _ _ Hf Hd).
      * match goal with |- context [prepend ?evs (after_user _ ?u _ ?s)] =>
          destruct (prepend_after_user_Some evs groups u shib_meta s Hit)
            as (σ' & ev & -> & _ & Hg & _) end.
        simpl. split; [by intros ? [= <-]|]. intros _ _.
        eexists. split; [done|]. split; [done|]. by intros ? [= ->].
  - rewrite (reconcile_ambiguous _ Hcreate _ _ _ _ _ _ _ _ Hf). simpl.
    split; [done|]. intros Hlen. simpl in Hlen. lia.
Qed.

(** ** Creation enabled, no [groups] key (lines 40-41 and 66) *)

(** Without a [groups] key the method never returns: [groups] is
    [None], and line 66 iterates over it.  Up to that line the user row
    was read, and created or updated; no membership row is written. *)
Lemma create_without_groups self username groups
    (shib_meta shib_user_params : gmap string attr) σ :
  create_unknown_user self = true →
  not_iterable groups →
  let x := reconcile self username groups shib_meta shib_user_params σ in
  (x.1.1 = Raise TypeError ∨ x.1.1 = Raise IntegrityError
   ∨ x.1.1 = Raise MultipleObjectsReturned) ∧
  Forall (λ e, is_membership_write e = false) x.2 ∧
  Forall (λ e, is_archive_call e = false) x.2.
Proof.
  intros Hcreate Hnone x. subst x.
  destruct (filter (row_matches (by_username username)) (auth_user σ))
    as [|u0 [|u1 rest]] eqn:Hf.
  - destruct (decide (username_taken (auth_user σ) None
                        (shib_user_params ∪ by_username username))) as [Ht|Ht].
    + rewrite (reconcile_refused _ Hcreate _ _ _ _ _ Hf Ht). simpl.
      split; [by right; left|]. split; by repeat constructor.
    + rewrite (reconcile_created _ Hcreate _ _ _ _ _ Hf Ht).
      rewrite after_user_raises by done. simpl.
      split; [by left|]. split; by repeat constructor.
  - rewrite (reconcile_found _ Hcreate _ _ _ _ _ _ Hf).
    repeat case_decide; rewrite ?after_user_raises by done; simpl;
      (split; [auto|]); split; by repeat constructor.
  - rewrite (reconcile_ambiguous _ Hcreate _ _ _ _ _ _ _ _ Hf). simpl.
    split; [auto|]. split; by repeat constructor.
Qed.

(** ** Group synchronisation through [authenticate] *)

(** C1: with [create_unknown_user = True], a non-empty [remote_user]
    and a dictionary whose [groups] entry is the list [L], every user
    [authenticate] returns is a member of exactly the groups named in
    [L]: memberships outside [L] are removed, missing ones are added.
    And the method does return such a user when the recognised fields
    are text or boolean columns holding strings, at most one row holds
    the username and the dictionary asserts no other username; a user
    who was already in the table keeps the primary key. *)
Theorem C1_group_sync_full_replace fn self ru (shib_meta : gmap string attr)
    (L : list string) σ :
  ru ≠ "" →
  create_unknown_user self = true →
  shib_meta !! "groups" = Some (AList L) →
  let out := authenticate fn self (Some ru) shib_meta σ in
  let username := clean_username self ru in
  let shib_user_params := shib_user_params_of fn (delete "groups" shib_meta) in
  let found := filter (row_matches (by_username username)) (auth_user σ) in
  (∀ user, returned out = Return (Some user) →
     groups_of (db_after out) (pk user) = list_to_set L) ∧
  (column_params shib_user_params →
   (List.length found ≤ 1)%nat →
   shib_user_params !! "username" = None
   ∨ shib_user_params !! "username" = Some (AStr username) →
   ∃ user, returned out = Return (Some user) ∧
           groups_of (db_after out) (pk user) = list_to_set L ∧
           ∀ u0, found = [u0] → pk user = pk u0).
Proof.
  intros Hru Hcreate Hg out username params found. subst out found.
  rewrite authenticate_run by done. cbv zeta. rewrite Hg. simpl.
  destruct (create_with_groups self username (AList L)
              (delete "groups" shib_meta) params σ Hcreate I) as [Hall Hret].
  split; [exact Hall|]. intros _. exact Hret.
Qed.

Lemma C1_witness :
  let out := authenticate auth_user_field_names ShibbolethRemoteUserBackend
               (Some "alice")
               {[ "groups" := AList ["B"; "C"]; "username" := AStr "alice" ]}
               example_db in
  groups_of example_db 1 = list_to_set ["A"; "B"] ∧
  ∃ user, returned out = Return (Some user) ∧ pk user = 1 ∧
          groups_of (db_after out) (pk user) = list_to_set ["B"; "C"].
Proof.
  cbv zeta. split; [by vm_compute|].
  destruct (C1_group_sync_full_replace auth_user_field_names
              ShibbolethRemoteUserBackend "alice"
              {[ "groups" := AList ["B"; "C"]; "username" := AStr "alice" ]}
              ["B"; "C"] example_db) as (_ & Hret);
    [done|reflexivity|by vm_compute|].
  destruct Hret as (user & Hr & Hgr & Hpk);
    [refine (bool_decide_unpack _ _); by vm_compute
    |vm_compute; lia|right; by vm_compute|].
  exists user. split; [exact Hr|]. split; [|exact Hgr].
  apply (Hpk alice). by vm_compute.
Defined.

(** C3: with [create_unknown_user = True], a non-empty [remote_user]
    and a dictionary whose [groups] entry is the empty list, every user
    [authenticate] returns is left in no group at all, and the method
    does return such a user under the conditions of C1.  A dictionary
    without the key behaves differently: then the method writes no
    membership row. *)
Theorem C3_empty_groups_removes_all fn self ru (shib_meta : gmap string attr) σ :
  ru ≠ "" →
  create_unknown_user self = true →
  shib_meta !! "groups" = Some (AList []) →
  let out := authenticate fn self (Some ru) shib_meta σ in
  let username := clean_username self ru in
  let shib_user_params := shib_user_params_of fn (delete "groups" shib_meta) in
  let found := filter (row_matches (by_username username)) (auth_user σ) in
  (∀ user, returned out = Return (Some user) →
     groups_of (db_after out) (pk user) = ∅) ∧
  (column_params shib_user_params →
   (List.length found ≤ 1)%nat →
   shib_user_params !! "username" = None
   ∨ shib_user_params !! "username" = Some (AStr username) →
   ∃ user, returned out = Return (Some user) ∧
           groups_of (db_after out) (pk user) = ∅ ∧
           ∀ u0, found = [u0] → pk user = pk u0) ∧
  (∀ no_key : gmap string attr, no_key !! "groups" = None →
     Forall (λ e, is_membership_write e = false)
       (events (authenticate fn self (Some ru) no_key σ))).
Proof.
  intros Hru Hcreate Hg out username params found. subst out found.
  assert (∀ no_key : gmap string attr, no_key !! "groups" = None →
     Forall (λ e, is_membership_write e = false)
       (events (authenticate fn self (Some ru) no_key σ))) as Hskip.
  { intros no_key Hno. rewrite authenticate_run by done. cbv zeta.
    rewrite Hno. simpl. by apply create_without_groups. }
  rewrite authenticate_run by done. cbv zeta. rewrite Hg. simpl.
  destruct (create_with_groups self username (AList []) (delete "groups" shib_meta)
              params σ Hcreate I) as [Hall Hret].
  split; [exact Hall|]. split; [|exact Hskip]. intros _. exact Hret.
Qed.

Lemma C3_witness :
  let out := authenticate auth_user_field_names ShibbolethRemoteUserBackend
               (Some "alice")
               {[ "groups" := AList []; "username" := AStr "alice" ]}
               example_db in
  groups_of example_db 1 = list_to_set ["A"; "B"] ∧
  ∃ user, returned out = Return (Some user) ∧ pk user = 1 ∧
          groups_of (db_after out) (pk user) = ∅.
Proof.
  cbv zeta. split; [by vm_compute|].
  destruct (C3_empty_groups_removes_all auth_user_field_names
              ShibbolethRemoteUserBackend "alice"
              {[ "groups" := AList []; "username" := AStr "alice" ]}
              example_db) as (_ & Hret & _);
    [done|reflexivity|by vm_compute|].
  destruct Hret as (user & Hr & Hgr & Hpk);
    [refine (bool_decide_unpack _ _); by vm_compute
    |vm_compute; lia|right; by vm_compute|].
  exists user. split; [exact Hr|]. split; [|exact Hgr].
  apply (Hpk alice). by vm_compute.
Defined.

(** X3: with creation enabled and no [groups] key, no call of
    [authenticate] with a non-empty [remote_user] returns, neither a
    user nor [None]: line 66 is reached only to raise. *)
Lemma authenticate_without_groups_never_returns fn self ru
    (shib_meta : gmap string attr) σ :
  ru ≠ "" →
  create_unknown_user self = true →
  shib_meta !! "groups" = None →
  let out := authenticate fn self (Some ru) shib_meta σ in
  ∀ r, returned out ≠ Return r.
Proof.
  intros Hru Hcreate Hno out r. subst out.
  rewrite authenticate_run by done. cbv zeta. rewrite Hno. simpl.
  destruct (create_without_groups self (clean_username self ru) None
              shib_meta (shib_user_params_of fn shib_meta) σ Hcreate I)
    as [Hr _].
  rewrite (delete_id _ _ Hno).
  destruct Hr as [Hr|[Hr|Hr]]; rewrite Hr; done.
Qed.

(** C2: the method at a dictionary without a [groups] key.  For the
    known user alice and a dictionary holding only her e-mail address,
    [authenticate] does not return her: it raises [TypeError] (line 66
    iterates over [groups = None]).  The tables, her memberships among
    them, are as before. *)
Theorem C2_no_groups_key_raises_TypeError :
  let out := authenticate auth_user_field_names ShibbolethRemoteUserBackend
               (Some "alice") {[ "email" := AStr "alice@example.org" ]}
               example_db in
  returned out = Raise TypeError ∧ db_after out = example_db.
Proof. by vm_compute. Qed.

(** ** User creation and the post-creation hook (lines 47-51) *)

(** X4: for a username no row holds, recognised fields that are text
    or boolean columns holding strings, and a new row the unique index
    accepts, the method inserts one row under a key no row had, built
    from the username and the recognised fields (each stored as its
    column stores it), calls the hook once on the new object, and goes
    on with the user the hook returns; that user is the result when the
    dictionary has a [groups] entry that can be iterated. *)
Lemma authenticate_creates_and_configures fn self ru
    (shib_meta : gmap string attr) σ :
  ru ≠ "" →
  create_unknown_user self = true →
  let username := clean_username self ru in
  let shib_user_params := shib_user_params_of fn (delete "groups" shib_meta) in
  column_params shib_user_params →
  filter (row_matches (by_username username)) (auth_user σ) = [] →
  ¬ username_taken (auth_user σ) None (shib_user_params ∪ by_username username) →
  let out := authenticate fn self (Some ru) shib_meta σ in
  ∃ obj row σ1 ev,
    pk obj ∉ pk <$> auth_user σ ∧ pk row = pk obj ∧
    shib_user_params ∪ by_username username ⊆ fields obj ∧
    (∀ k v, (shib_user_params ∪ by_username username) !! k = Some v →
            fields row !! k = Some (prep_value k v)) ∧
    auth_user σ1 = auth_user σ ++ [row] ∧
    auth_group σ1 = auth_group σ ∧
    auth_user_groups σ1 = auth_user_groups σ ∧
    events out =
      [UserSelect (by_username username); UserInsert obj; ConfigureUser obj] ++ ev ∧
    let configured := (configure_user self obj σ1).1 in
    match shib_meta !! "groups" with
    | None | Some (ATyped _) => returned out = Raise TypeError ∧ ev = []
    | Some groups =>
        returned out = Return (Some configured) ∧
        ∃ ev', ev = ev' ++ [ArchiveAttributes configured (delete "groups" shib_meta)] ∧
               Forall (λ e, is_group_sync_event e = true) ev'
    end.
Proof.
  intros Hru Hcreate username params _ Hf Ht out. subst out.
  rewrite authenticate_run by done. cbv zeta.
  rewrite (reconcile_created _ Hcreate _ _ _ _ _ Hf Ht).
  fold username params.
  set (obj := mkUser (next_pk (auth_user σ)) (params ∪ by_username username)).
  set (σ1 := mkDb (auth_user σ ++ [to_db obj]) (auth_group σ)
               (auth_user_groups σ)).
  assert (∀ k v, (params ∪ by_username username) !! k = Some v →
                 fields (to_db obj) !! k = Some (prep_value k v)) as Hrow.
  { intros k v Hk. rewrite lookup_to_db. simpl. by rewrite Hk. }
  destruct (not_iterable_cases (shib_meta !! "groups"))
    as [Hnone|(groups & Hg & Hit)].
  - rewrite after_user_raises by done. simpl.
    exists obj, (to_db obj), σ1, [].
    split; [apply next_pk_fresh|]. split; [done|]. split; [done|].
    split; [exact Hrow|]. do 4 (split; [done|]).
    by destruct (shib_meta !! "groups") as [[]|].
  - rewrite Hg.
    match goal with |- context [prepend ?evs (after_user _ ?u ?m ?s)] =>
      destruct (prepend_after_user_Some evs groups u m s Hit)
        as (σ' & ev & -> & _ & _ & _ & Hev & _) end.
    cbn [returned events fst snd].
    exists obj, (to_db obj), σ1,
      (ev ++ [ArchiveAttributes (configure_user self obj σ1).1
                (delete "groups" shib_meta)]).
    split; [apply next_pk_fresh|]. split; [done|]. split; [done|].
    split; [exact Hrow|]. do 4 (split; [done|]).
    destruct groups; try done; split; eauto.
Qed.

(** X5: for a user the lookup finds, and recognised fields that are
    text or boolean columns holding strings, the hook is not called and
    no row is inserted. *)
Lemma authenticate_existing_user_not_configured fn self ru
    (shib_meta : gmap string attr) σ u0 :
  ru ≠ "" →
  create_unknown_user self = true →
  column_params (shib_user_params_of fn (delete "groups" shib_meta)) →
  filter (row_matches (by_username (clean_username self ru))) (auth_user σ) = [u0] →
  Forall (λ e, ∀ u, e ≠ ConfigureUser u ∧ e ≠ UserInsert u)
    (events (authenticate fn self (Some ru) shib_meta σ)).
Proof.
  intros Hru Hcreate _ Hf. rewrite authenticate_run by done. cbv zeta.
  rewrite (reconcile_found _ Hcreate _ _ _ _ _ _ Hf).
  assert (∀ evs user s,
    Forall (λ e, ∀ u, e ≠ ConfigureUser u ∧ e ≠ UserInsert u) evs →
    Forall (λ e, ∀ u, e ≠ ConfigureUser u ∧ e ≠ UserInsert u)
      (prepend evs (after_user (shib_meta !! "groups") user
                      (delete "groups" shib_meta) s)).2) as Htail.
  { intros evs user s Hevs.
    destruct (not_iterable_cases (shib_meta !! "groups"))
      as [Hnone|(groups & -> & Hit)].
    - rewrite after_user_raises by done. simpl. by rewrite app_nil_r.
    - destruct (prepend_after_user_Some evs groups user
                  (delete "groups" shib_meta) s Hit)
        as (σ' & ev & -> & _ & _ & _ & Hev & _).
      simpl. rewrite !Forall_app. split; [done|]. split.
      + eapply Forall_impl; [exact Hev|]. intros e He u. by destruct e.
      + apply Forall_cons_2; [by intros u|apply Forall_nil_2]. }
  repeat case_decide; simpl; try apply Htail;
    repeat (first [apply Forall_nil_2|apply Forall_cons_2; [by intros u|]]).
  all: apply (Htail []), Forall_nil_2.
Qed.

(** C4: the method at an unknown user and a dictionary without a
    [groups] key.  [authenticate] looks carol up, inserts one row made of
    her username and the recognised field, calls the hook once on the
    new row, and then raises [TypeError]: no user results. *)
Theorem C4_new_user_without_groups_has_no_result :
  let out := authenticate auth_user_field_names ShibbolethRemoteUserBackend
               (Some "carol") {[ "email" := AStr "carol@example.org" ]}
               example_db in
  let carol := mkUser 3 {[ "username" := AStr "carol";
                           "email" := AStr "carol@example.org" ]} in
  events out =
    [UserSelect {[ "username" := AStr "carol" ]}; UserInsert carol;
     ConfigureUser carol] ∧
  auth_user (db_after out) = [alice; bob; carol] ∧
  returned out = Raise TypeError.
Proof. by vm_compute. Qed.

(** ** The caller's dictionary and the Attribute Archiver (lines 37-39, 75) *)

Lemma filter_archive_sync_tail evs ev user (shib_meta : gmap string attr) :
  filter (λ e, is_archive_call e = true) evs = [] →
  Forall (λ e, is_group_sync_event e = true) ev →
  filter (λ e, is_archive_call e = true)
    (evs ++ ev ++ [ArchiveAttributes user shib_meta]) =
  [ArchiveAttributes user shib_meta].
Proof.
  intros Hevs Hev. rewrite !filter_app, Hevs.
  by rewrite (group_sync_events_no_archive _ Hev).
Qed.

(** With creation enabled and a [groups] entry, the archiver is called
    exactly when a user is returned: once, with that user and the
    dictionary it is given. *)
Lemma create_with_groups_archive self username groups
    (shib_meta shib_user_params : gmap string attr) σ :
  create_unknown_user self = true →
  let x := reconcile self username (Some groups) shib_meta shib_user_params σ in
  filter (λ e, is_archive_call e = true) x.2 =
  match x.1.1 with
  | Return (Some user) => [ArchiveAttributes user shib_meta]
  | _ => []
  end.
Proof.
  intros Hcreate x. subst x.
  destruct (not_iterable_cases (Some groups)) as [Hnone|(g & [= <-] & Hit)].
  { destruct (create_without_groups self username (Some groups) shib_meta
                shib_user_params σ Hcreate Hnone) as (Hr & _ & Harch).
    cbv zeta in Hr, Harch.
    assert (filter (λ e, is_archive_call e = true)
              (reconcile self username (Some groups) shib_meta
                 shib_user_params σ).2 = []) as ->.
    { induction Harch as [|e ev He _ IH]; [done|].
      rewrite filter_cons_False; [done|]. by rewrite He. }
    by destruct Hr as [->|[->| ->]]. }
  destruct (filter (row_matches (by_username username)) (auth_user σ))
    as [|u0 [|u1 rest]] eqn:Hf.
  - destruct (decide (username_taken (auth_user σ) None
                        (shib_user_params ∪ by_username username))) as [Ht|Ht].
    + by rewrite (reconcile_refused _ Hcreate _ _ _ _ _ Hf Ht).
    + rewrite (reconcile_created _ Hcreate _ _ _ _ _ Hf Ht).
      match goal with |- context [prepend ?evs (after_user _ ?u _ ?s)] =>
        destruct (prepend_after_user_Some evs groups u shib_meta s Hit)
          as (σ' & ev & -> & _ & _ & _ & Hev & _) end.
      cbn [fst snd]. by apply filter_archive_sync_tail.
  - rewrite (reconcile_found _ Hcreate _ _ _ _ _ _ Hf).
    repeat case_decide; try done;
      match goal with |- context [prepend ?evs (after_user _ ?u _ ?s)] =>
        destruct (prepend_after_user_Some evs groups u shib_meta s Hit)
          as (σ' & ev & -> & _ & _ & _ & Hev & _) end;
      cbn [fst snd]; by apply filter_archive_sync_tail.
  - by rewrite (reconcile_ambiguous _ Hcreate _ _ _ _ _ _ _ _ Hf).
Qed.

(** C9, as the method does it: when [remote_user] is non-empty and the
    dictionary has a [groups] key, [authenticate] deletes that key from
    the caller's dictionary and changes no other key; the Attribute
    Archiver is called exactly when [create_unknown_user] is true and a
    user is returned, once, with that user and the dictionary without
    the [groups] key.  (For an empty [remote_user] the dictionary is
    left as it is, and with [create_unknown_user = False] the archiver is
    never called: see the counterexample.) *)
Theorem C9_groups_key_deleted_in_place fn self ru (shib_meta : gmap string attr) σ :
  ru ≠ "" →
  is_Some (shib_meta !! "groups") →
  let out := authenticate fn self (Some ru) shib_meta σ in
  shib_meta_after out = delete "groups" shib_meta ∧
  shib_meta_after out !! "groups" = None ∧
  (∀ k, k ≠ "groups" → shib_meta_after out !! k = shib_meta !! k) ∧
  filter (λ e, is_archive_call e = true) (events out) =
  match returned out with
  | Return (Some user) =>
      if create_unknown_user self
      then [ArchiveAttributes user (delete "groups" shib_meta)] else []
  | _ => []
  end.
Proof.
  intros Hru [groups Hg] out. subst out.
  rewrite authenticate_run by done. cbv zeta. simpl.
  split; [done|]. split; [apply lookup_delete_eq|].
  split; [by intros k Hk; apply lookup_delete_ne|].
  rewrite Hg. destruct (create_unknown_user self) eqn:Hcreate.
  - by apply create_with_groups_archive.
  - rewrite (reconcile_no_create _ _ _ _ _ _ Hcreate). simpl.
    by repeat case_match.
Qed.

Lemma C9_witness :
  let shib_meta : gmap string attr :=
    {[ "groups" := AList ["B"; "C"]; "username" := AStr "alice";
       "Shib-Session-ID" := AStr "_5f3c" ]} in
  let out := authenticate auth_user_field_names ShibbolethRemoteUserBackend
               (Some "alice") shib_meta example_db in
  shib_meta_after out =
    {[ "username" := AStr "alice"; "Shib-Session-ID" := AStr "_5f3c" ]} ∧
  filter (λ e, is_archive_call e = true) (events out) =
    [ArchiveAttributes alice
       {[ "username" := AStr "alice"; "Shib-Session-ID" := AStr "_5f3c" ]}].
Proof.
  cbv zeta.
  destruct (C9_groups_key_deleted_in_place auth_user_field_names
              ShibbolethRemoteUserBackend "alice"
              {[ "groups" := AList ["B"; "C"]; "username" := AStr "alice";
                 "Shib-Session-ID" := AStr "_5f3c" ]} example_db)
    as (Hm & _ & _ & Harch); [done|eexists; vm_compute; reflexivity|].
  split.
  - rewrite Hm. by vm_compute.
  - rewrite Harch. by vm_compute.
Defined.

(** C9 as stated fails in two places.  With an empty [remote_user] the
    method returns before line 37, and the [groups] key stays in the
    caller's dictionary; with [create_unknown_user = False] the key is
    deleted and bob is returned, but the archiver is not called. *)
Lemma C9_counterexample :
  let shib_meta : gmap string attr :=
    {[ "groups" := AList ["A"]; "username" := AStr "bob" ]} in
  (let out := authenticate auth_user_field_names ShibbolethRemoteUserBackend
                (Some "") shib_meta example_db in
   shib_meta_after out !! "groups" = Some (AList ["A"]) ∧
   filter (λ e, is_archive_call e = true) (events out) = []) ∧
  (let out := authenticate auth_user_field_names NoCreateBackend
                (Some "bob") shib_meta example_db in
   returned out = Return (Some bob) ∧
   shib_meta_after out !! "groups" = None ∧
   filter (λ e, is_archive_call e = true) (events out) = []).
Proof. by vm_compute. Qed.

(** ** Updating a user the lookup finds (lines 52-60) *)

(** Lines 62-75 leave the user table alone, never call [save()], and
    can only return the user they were given. *)
Lemma after_user_frame evs groups user (shib_meta : gmap string attr) σ :
  let x := prepend evs (after_user groups user shib_meta σ) in
  auth_user x.1.2 = auth_user σ ∧
  filter (λ e, is_persist_call e = true) x.2 =
    filter (λ e, is_persist_call e = true) evs ∧
  (∀ user', x.1.1 = Return (Some user') → user' = user).
Proof.
  intros x. subst x.
  destruct (not_iterable_cases groups) as [Hnone|(g & -> & Hit)].
  - rewrite after_user_raises by done. simpl. rewrite app_nil_r. done.
  - destruct (prepend_after_user_Some evs g user shib_meta σ Hit)
      as (σ' & ev & -> & Hu & _ & _ & Hev & _).
    simpl. split; [done|]. split; [|by intros ? [= ->]].
    rewrite !filter_app, (group_sync_events_no_persist _ Hev).
    by rewrite app_nil_r.
Qed.

Lemma saved_elem user σ u0 :
  u0 ∈ auth_user σ → pk u0 = pk user → to_db user ∈ auth_user (saved user σ).
Proof.
  intros Hin Hpk. unfold saved. simpl.
  apply list_elem_of_fmap. exists u0. by rewrite decide_True.
Qed.

(** C5, as the method does it: with [create_unknown_user = True], a
    non-empty [remote_user], recognised fields that are text or boolean
    columns holding strings, and a user [u0] the lookup by username
    finds, [authenticate] compares every recognised field with the
    value read from the row and sets the ones that differ, giving [u1]:
    its recognised fields are the dictionary's, its other fields are
    [u0]'s.  It calls [save()] once when some comparison differed and
    not at all when none did.  Unless the unique index refuses the new
    username, the user table afterwards holds the row of [u1] in place
    of [u0]: a text column holds the asserted string, and a column that
    was written holds what it makes of the asserted value.  A user that
    is returned is [u1]. *)
Theorem C5_existing_user_updated_once fn self ru (shib_meta : gmap string attr)
    σ u0 :
  ru ≠ "" →
  create_unknown_user self = true →
  filter (row_matches (by_username (clean_username self ru))) (auth_user σ) = [u0] →
  let out := authenticate fn self (Some ru) shib_meta σ in
  let shib_user_params := shib_user_params_of fn (delete "groups" shib_meta) in
  column_params shib_user_params →
  let u1 := mkUser (pk u0) (shib_user_params ∪ fields u0) in
  (∀ k v, shib_user_params !! k = Some v → fields u1 !! k = Some v) ∧
  (∀ k, shib_user_params !! k = None → fields u1 !! k = fields u0 !! k) ∧
  filter (λ e, is_persist_call e = true) (events out) =
    (if decide (row_matches shib_user_params u0) then []
     else if decide (username_taken (auth_user σ) (Some (pk u0)) (fields u1))
          then [UserUpdateRejected u1] else [UserUpdate u1]) ∧
  (¬ username_taken (auth_user σ) (Some (pk u0)) (fields u1) →
   auth_user (db_after out) =
     (if decide (row_matches shib_user_params u0) then auth_user σ
      else auth_user (saved u1 σ)) ∧
   ∃ row, row ∈ auth_user (db_after out) ∧ pk row = pk u0 ∧
     (∀ k v, shib_user_params !! k = Some v → k ∈ text_columns →
             fields row !! k = Some v) ∧
     (¬ row_matches shib_user_params u0 →
      ∀ k v, shib_user_params !! k = Some v →
             fields row !! k = Some (prep_value k v))) ∧
  (∀ user, returned out = Return (Some user) → user = u1).
Proof.
  intros Hru Hcreate Hf out params _ u1. subst out.
  destruct (found_in _ _ _ Hf) as [Hin _].
  split; [by intros k v Hk; apply lookup_union_Some_l|].
  split; [by intros k Hk; apply lookup_union_r|].
  rewrite authenticate_run by done. cbv zeta.
  rewrite (reconcile_found _ Hcreate _ _ _ _ _ _ Hf). fold params u1.
  destruct (decide (row_matches params u0)) as [Hm|Hm].
  - assert (u1 = u0) as Hu1.
    { subst u1. destruct u0 as [p f]. simpl. f_equal.
      apply map_subseteq_union. apply row_matches_subseteq in Hm. exact Hm. }
    match goal with |- context [prepend ?evs (after_user ?g ?u ?m ?s)] =>
      destruct (after_user_frame evs g u m s) as (Hu & Hp & Hr) end.
    cbn [returned db_after events].
    split; [by rewrite Hp|]. split; [|by rewrite Hu1].
    intros _. rewrite Hu. split; [done|]. exists u0.
    split; [done|]. split; [done|]. split; [|done].
    intros k v Hk _. by apply (Hm k v).
  - destruct (decide (username_taken (auth_user σ) (Some (pk u0)) (fields u1)))
      as [Ht|Ht].
    + cbn [returned db_after events fst snd]. done.
    + match goal with |- context [prepend ?evs (after_user ?g ?u ?m ?s)] =>
        destruct (after_user_frame evs g u m s) as (Hu & Hp & Hr) end.
      cbn [returned db_after events].
      split; [by rewrite Hp|]. split; [|done].
      intros _. rewrite Hu. split; [done|]. exists (to_db u1).
      split; [by apply (saved_elem u1 σ u0)|]. split; [done|].
      assert (∀ k v, params !! k = Some v →
                     fields (to_db u1) !! k = Some (prep_value k v)) as Hrow.
      { intros k v Hk. rewrite lookup_to_db. subst u1. simpl.
        by rewrite (lookup_union_Some_l _ _ _ _ Hk). }
      split; [|by intros _].
      intros k v Hk Hc. rewrite (Hrow k v Hk).
      by rewrite prep_value_text by by apply text_not_boolean.
Qed.

Lemma C5_witness :
  let shib_meta : gmap string attr :=
    {[ "groups" := AList ["A"; "B"]; "username" := AStr "alice";
       "email" := AStr "alice@new.example.org" ]} in
  let out := authenticate auth_user_field_names ShibbolethRemoteUserBackend
               (Some "alice") shib_meta example_db in
  let alice' := mkUser 1 {[ "username" := AStr "alice";
                            "email" := AStr "alice@new.example.org" ]} in
  filter (λ e, is_persist_call e = true) (events out) = [UserUpdate alice'] ∧
  auth_user (db_after out) = [alice'; bob].
Proof.
  cbv zeta.
  destruct (C5_existing_user_updated_once auth_user_field_names
              ShibbolethRemoteUserBackend "alice"
              {[ "groups" := AList ["A"; "B"]; "username" := AStr "alice";
                 "email" := AStr "alice@new.example.org" ]} example_db alice)
    as (_ & _ & Hp & Hdb & _);
    [done|reflexivity|by vm_compute
    |refine (bool_decide_unpack _ _); by vm_compute|].
  split.
  - rewrite Hp. by vm_compute.
  - destruct Hdb as [-> _];
      [refine (bool_decide_unpack _ _); by vm_compute|]. by vm_compute.
Defined.

(** C5 as stated fails for a boolean column.  For alice and a
    dictionary that asserts [is_active = 'true'], the column stores
    [True]: the stored field does not equal the asserted string.  So on
    a second call with the same dictionary the comparison differs
    again, and [save()] is called once more although the first call
    applied every field and the row does not change. *)
Lemma C5_counterexample :
  let shib_meta : gmap string attr :=
    {[ "groups" := AList ["A"; "B"]; "is_active" := AStr "true" ]} in
  let out1 := authenticate auth_user_field_names ShibbolethRemoteUserBackend
                (Some "alice") shib_meta example_db in
  let out2 := authenticate auth_user_field_names ShibbolethRemoteUserBackend
                (Some "alice") shib_meta (db_after out1) in
  let stored := mkUser 1 {[ "username" := AStr "alice";
                            "email" := AStr "alice@example.org";
                            "is_active" := ATyped "True" ]} in
  let held := mkUser 1 {[ "username" := AStr "alice";
                          "email" := AStr "alice@example.org";
                          "is_active" := AStr "true" ]} in
  auth_user (db_after out1) = [stored; bob] ∧
  fields stored !! "is_active" ≠ Some (AStr "true") ∧
  returned out2 = Return (Some held) ∧
  auth_user (db_after out2) = [stored; bob] ∧
  filter (λ e, is_persist_call e = true) (events out2) = [UserUpdate held].
Proof. by vm_compute. Qed.

(** ** A second call with the same assertion (lines 47-75) *)

(** What lines 62-75 establish: the user table is as it was, and when
    [groups] could be iterated the memberships are in sync with it. *)
Lemma after_user_post evs groups user (shib_meta : gmap string attr) σ :
  let x := prepend evs (after_user groups user shib_meta σ) in
  auth_user x.1.2 = auth_user σ ∧
  (∀ a, groups = Some a → iterable a → synced (pk user) (iter_values a) x.1.2).
Proof.
  intros x. subst x.
  destruct (not_iterable_cases groups) as [Hnone|(g & -> & Hit)].
  - rewrite after_user_raises by done. simpl. split; [done|].
    intros a -> Ha. by destruct a.
  - destruct (prepend_after_user_Some evs g user shib_meta σ Hit)
      as (σ' & ev & -> & Hu & _ & Hs & _).
    simpl. split; [done|]. by intros a [= <-].
Qed.

(** On a state where the lookup finds a user whose recognised fields
    already agree and whose memberships are in sync, the method writes
    nothing. *)
Lemma reconcile_quiet_found self username groups
    (shib_meta shib_user_params : gmap string attr) σ user :
  create_unknown_user self = true →
  filter (row_matches (by_username username)) (auth_user σ) = [user] →
  row_matches shib_user_params user →
  (∀ a, groups = Some a → iterable a → synced (pk user) (iter_values a) σ) →
  let x := reconcile self username groups shib_meta shib_user_params σ in
  x.1.2 = σ ∧ Forall (λ e, is_store_write e = false) x.2.
Proof.
  intros Hcreate Hf Hm Hs x. subst x.
  rewrite (reconcile_found _ Hcreate _ _ _ _ _ _ Hf).
  rewrite decide_True by done.
  destruct (not_iterable_cases groups) as [Hnone|(g & -> & Hit)].
  - rewrite after_user_raises by done. simpl. split; [done|].
    by repeat constructor.
  - destruct (prepend_after_user_Some [UserSelect (by_username username)]
                g user shib_meta σ Hit)
      as (σ' & ev & -> & _ & _ & _ & _ & Hid).
    destruct (Hid (Hs _ eq_refl Hit)) as [-> Hev]. simpl. split; [done|].
    apply Forall_cons_2; [done|]. apply Forall_app. split; [done|].
    by repeat constructor.
Qed.

(** The rows a lookup finds after [save()]: the saved row, or rows the
    lookup found before under another primary key. *)
Lemma filter_saved_elem q user σ x :
  x ∈ filter (row_matches q) (auth_user (saved user σ)) →
  (x = to_db user ∧ row_matches q (to_db user))
  ∨ (x ∈ auth_user σ ∧ pk x ≠ pk user ∧ row_matches q x).
Proof.
  intros [Hm Hin]%list_elem_of_filter. unfold saved in Hin. simpl in Hin.
  apply list_elem_of_fmap in Hin as (r & -> & Hr).
  case_decide; [by left|by right].
Qed.

(** Once the method has run with creation enabled and the inherited
    hook, on recognised fields that are text columns holding strings,
    running it again on the tables it left, with the same username and
    recognised fields and with the same [groups] (or with [None], when
    the caller passes the dictionary the first call stripped), leaves
    the tables as they are and writes nothing. *)
Lemma second_call_quiet self username groups groups2
    (shib_meta shib_meta2 shib_user_params : gmap string attr) σ :
  create_unknown_user self = true →
  configure_user self = inherited_configure_user →
  text_params shib_user_params →
  groups2 = groups ∨ groups2 = None →
  let σ1 := (reconcile self username groups shib_meta shib_user_params σ).1.2 in
  let x2 := reconcile self username groups2 shib_meta2 shib_user_params σ1 in
  x2.1.2 = σ1 ∧ Forall (λ e, is_store_write e = false) x2.2.
Proof.
  intros Hcreate Hhook Htext Hg2 σ1 x2. subst σ1 x2.
  assert (Hsync2 : ∀ p (s : db),
    (∀ a, groups = Some a → iterable a → synced p (iter_values a) s) →
    (∀ a, groups2 = Some a → iterable a → synced p (iter_values a) s)).
  { intros p s Hs a Ha. destruct Hg2 as [->| ->]; [by apply Hs|done]. }
  assert (Hname : ∀ (f : gmap string attr) p,
    fields (to_db (mkUser p (shib_user_params ∪ f))) !! "username" =
    (shib_user_params ∪ f) !! "username").
  { intros f p. by rewrite to_db_username. }
  assert (Hrow : ∀ (f : gmap string attr) p,
    row_matches shib_user_params (to_db (mkUser p (shib_user_params ∪ f)))).
  { intros f p. apply row_matches_to_db; [done|].
    apply row_matches_subseteq. simpl. apply map_union_subseteq_l. }
  destruct (filter (row_matches (by_username username)) (auth_user σ))
    as [|u0 [|u1 rest]] eqn:Hf.
  - destruct (decide (username_taken (auth_user σ) None
                        (shib_user_params ∪ by_username username))) as [Ht|Ht].
    + rewrite (reconcile_refused _ Hcreate _ _ _ _ _ Hf Ht). simpl.
      rewrite (reconcile_refused _ Hcreate _ _ _ _ _ Hf Ht). simpl.
      split; [done|]. by repeat constructor.
    + rewrite (reconcile_created _ Hcreate _ _ _ _ _ Hf Ht).
      rewrite Hhook. unfold inherited_configure_user. cbn [fst snd].
      set (obj := mkUser (next_pk (auth_user σ))
                    (shib_user_params ∪ by_username username)).
      set (σo := mkDb (auth_user σ ++ [to_db obj]) (auth_group σ)
                   (auth_user_groups σ)).
      match goal with |- context [prepend ?evs (after_user _ ?u ?m ?s)] =>
        destruct (after_user_post evs groups u m s) as (Hu & Hs);
        set (σ1 := (prepend evs (after_user groups u m s)).1.2) in * end.
      assert (Hin : to_db obj ∈ auth_user σ1).
      { rewrite Hu. subst σo. simpl. apply elem_of_app. right. left. }
      assert (Hf1 : filter (row_matches (by_username username)) (auth_user σ1) =
                    filter (row_matches (by_username username)) [to_db obj]).
      { rewrite Hu. subst σo. simpl. by rewrite filter_app, Hf. }
      destruct (decide (row_matches (by_username username) (to_db obj)))
        as [Hm|Hm].
      * rewrite filter_cons_True in Hf1 by done.
        apply (reconcile_quiet_found self username groups2 shib_meta2
                 shib_user_params σ1 (to_db obj) Hcreate Hf1).
        -- apply Hrow.
        -- by apply Hsync2.
      * rewrite filter_cons_False in Hf1 by done.
        assert (username_taken (auth_user σ1) None
                  (shib_user_params ∪ by_username username)) as Ht1.
        { apply Exists_exists. exists (to_db obj). split; [done|].
          split; [done|]. split; [|apply Hname].
          exists (default (AStr username) (shib_user_params !! "username")).
          rewrite lookup_union, lookup_singleton_eq.
          by destruct (shib_user_params !! "username"). }
        rewrite (reconcile_refused _ Hcreate _ _ _ _ _ Hf1 Ht1). simpl.
        split; [done|]. by repeat constructor.
  - rewrite (reconcile_found _ Hcreate _ _ _ _ _ _ Hf).
    destruct (decide (row_matches shib_user_params u0)) as [Hm|Hm].
    + match goal with |- context [prepend ?evs (after_user _ ?u ?m ?s)] =>
        destruct (after_user_post evs groups u m s) as (Hu & Hs);
        set (σ1 := (prepend evs (after_user groups u m s)).1.2) in * end.
      apply (reconcile_quiet_found self username groups2 shib_meta2
               shib_user_params σ1 u0 Hcreate); [by rewrite Hu|done|].
      by apply Hsync2.
    + set (u1 := mkUser (pk u0) (shib_user_params ∪ fields u0)).
      destruct (decide (username_taken (auth_user σ) (Some (pk u0)) (fields u1)))
        as [Ht|Ht].
      * cbn [fst snd].
        rewrite (reconcile_found _ Hcreate _ _ _ _ _ _ Hf).
        rewrite decide_False by done. fold u1. rewrite decide_True by done.
        simpl. split; [done|]. by repeat constructor.
      * match goal with |- context [prepend ?evs (after_user _ ?u ?m ?s)] =>
          destruct (after_user_post evs groups u m s) as (Hu & Hs);
          set (σ1 := (prepend evs (after_user groups u m s)).1.2) in * end.
        destruct (found_in _ _ _ Hf) as [Hin0 Hm0].
        assert (Hin1 : to_db u1 ∈ auth_user σ1).
        { rewrite Hu. by apply (saved_elem u1 σ u0). }
        assert (Hall : ∀ x,
          x ∈ filter (row_matches (by_username username)) (auth_user σ1) →
          x = to_db u1).
        { intros x Hx. rewrite Hu in Hx.
          apply filter_saved_elem in Hx as [[-> _]|(Hx & Hpk & Hmx)]; [done|].
          destruct Hpk. by rewrite (found_elem _ _ _ _ Hf Hx Hmx). }
        destruct (filter (row_matches (by_username username)) (auth_user σ1))
          as [|x [|y rest]] eqn:Hf1.
        -- assert (username_taken (auth_user σ1) None
                     (shib_user_params ∪ by_username username)) as Ht1.
           { assert (¬ row_matches (by_username username) (to_db u1)) as Hn.
             { intros Hmu.
               assert (to_db u1 ∈ filter (row_matches (by_username username))
                                    (auth_user σ1)) as Hc
                 by by apply list_elem_of_filter.
               rewrite Hf1 in Hc. by apply elem_of_nil in Hc. }
             rewrite row_matches_by_username in Hn, Hm0.
             unfold u1 in Hn. rewrite Hname in Hn.
             destruct (shib_user_params !! "username") as [v|] eqn:Hv.
             - apply Exists_exists. exists (to_db u1). split; [done|].
               split; [done|].
               assert ((shib_user_params ∪ by_username username) !! "username"
                       = Some v) as -> by by apply lookup_union_Some_l.
               split; [by eexists|]. unfold u1. rewrite Hname.
               by apply lookup_union_Some_l.
             - destruct Hn. by rewrite lookup_union_r. }
           rewrite (reconcile_refused _ Hcreate _ _ _ _ _ Hf1 Ht1). simpl.
           split; [done|]. by repeat constructor.
        -- assert (x = to_db u1) as -> by (apply Hall; left).
           apply (reconcile_quiet_found self username groups2 shib_meta2
                    shib_user_params σ1 (to_db u1) Hcreate Hf1).
           ++ apply Hrow.
           ++ by apply Hsync2.
        -- rewrite (reconcile_ambiguous _ Hcreate _ _ _ _ _ _ _ _ Hf1). simpl.
           split; [done|]. by repeat constructor.
  - rewrite (reconcile_ambiguous _ Hcreate _ _ _ _ _ _ _ _ Hf). simpl.
    rewrite (reconcile_ambiguous _ Hcreate _ _ _ _ _ _ _ _ Hf). simpl.
    split; [done|]. by repeat constructor.
Qed.

Lemma shib_user_params_stripped fn (shib_meta : gmap string attr) :
  shib_user_params_of fn (delete "groups" (delete "groups" shib_meta)) =
  shib_user_params_of fn (delete "groups" shib_meta).
Proof. f_equal. apply delete_id, lookup_delete_eq. Qed.

(** C6, as the method does it: with [create_unknown_user = True], the
    hook the class inherits, a non-empty [remote_user] and recognised
    fields that are text columns holding strings, calling
    [authenticate] a second time with the same assertion, on the tables
    the first call left, writes nothing to the store and leaves the
    user, group and membership tables exactly as the first call left
    them.  This holds when the second call gets a dictionary equal to
    the original one, and also when it gets the very dictionary the
    first call stripped of its [groups] key. *)
Theorem C6_second_call_writes_nothing fn self ru (shib_meta : gmap string attr) σ :
  ru ≠ "" →
  create_unknown_user self = true →
  configure_user self = inherited_configure_user →
  text_params (shib_user_params_of fn (delete "groups" shib_meta)) →
  let out1 := authenticate fn self (Some ru) shib_meta σ in
  let out2 := authenticate fn self (Some ru) shib_meta (db_after out1) in
  let out2' := authenticate fn self (Some ru) (shib_meta_after out1)
                 (db_after out1) in
  (db_after out2 = db_after out1 ∧
   Forall (λ e, is_store_write e = false) (events out2)) ∧
  (db_after out2' = db_after out1 ∧
   Forall (λ e, is_store_write e = false) (events out2')).
Proof.
  intros Hru Hcreate Hhook Htext out1 out2 out2'. subst out1 out2 out2'.
  rewrite !authenticate_run by done. cbv zeta. cbn [db_after events shib_meta_after].
  split.
  - by apply second_call_quiet; [..|left].
  - rewrite lookup_delete_eq, shib_user_params_stripped.
    by apply second_call_quiet; [..|right].
Qed.

Lemma C6_witness :
  let shib_meta : gmap string attr :=
    {[ "groups" := AList ["B"; "C"]; "username" := AStr "carol";
       "email" := AStr "carol@example.org" ]} in
  let out1 := authenticate auth_user_field_names ShibbolethRemoteUserBackend
                (Some "carol") shib_meta example_db in
  let out2 := authenticate auth_user_field_names ShibbolethRemoteUserBackend
                (Some "carol") shib_meta (db_after out1) in
  filter (λ e, is_store_write e = true) (events out1) ≠ [] ∧
  db_after out2 = db_after out1 ∧
  Forall (λ e, is_store_write e = false) (events out2).
Proof.
  cbv zeta. split; [by vm_compute|].
  apply (C6_second_call_writes_nothing auth_user_field_names
           ShibbolethRemoteUserBackend "carol"
           {[ "groups" := AList ["B"; "C"]; "username" := AStr "carol";
              "email" := AStr "carol@example.org" ]} example_db);
    [done|reflexivity|reflexivity|].
  refine (bool_decide_unpack _ _). by vm_compute.
Defined.

(** C6 as stated fails for a boolean column.  The column reads back as
    [True], which never equals the asserted string ['true'], so the
    second call with the same dictionary finds a difference and writes
    alice's row again: one more [UPDATE], on tables that stay as they
    were. *)
Lemma C6_counterexample :
  let shib_meta : gmap string attr :=
    {[ "groups" := AList []; "is_active" := AStr "true" ]} in
  let out1 := authenticate auth_user_field_names ShibbolethRemoteUserBackend
                (Some "alice") shib_meta example_db in
  let out2 := authenticate auth_user_field_names ShibbolethRemoteUserBackend
                (Some "alice") shib_meta (db_after out1) in
  let held := mkUser 1 {[ "username" := AStr "alice";
                          "email" := AStr "alice@example.org";
                          "is_active" := AStr "true" ]} in
  filter (λ e, is_store_write e = true) (events out2) = [UserUpdate held] ∧
  ¬ Forall (λ e, is_store_write e = false) (events out2) ∧
  db_after out2 = db_after out1.
Proof.
  cbv zeta. split; [by vm_compute|]. split; [|by vm_compute].
  intros Hall.
  assert (filter (λ e, is_store_write e = true)
            (events (authenticate auth_user_field_names
                       ShibbolethRemoteUserBackend (Some "alice")
                       {[ "groups" := AList []; "is_active" := AStr "true" ]}
                       (db_after (authenticate auth_user_field_names
                          ShibbolethRemoteUserBackend (Some "alice")
                          {[ "groups" := AList []; "is_active" := AStr "true" ]}
                          example_db)))) = []) as Hnil.
  { induction Hall as [|e ev He _ IH]; [done|].
    rewrite filter_cons_False; [done|]. by rewrite He. }
  revert Hnil. by vm_compute.
Qed.

(** * Further properties of [authenticate] *)

(** ** Invariants of the tables *)

Lemma preserves_ret {A} (I : db → Prop) (a : A) : preserves I (mret a).
Proof. by intros σ. Qed.

Lemma preserves_raise {A} (I : db → Prop) e : preserves I (raise (A:=A) e).
Proof. by intros σ. Qed.

Lemma preserves_bind {A B} (I : db → Prop) (c : M A) (f : A → M B) :
  preserves I c → (∀ a, preserves I (f a)) → preserves I (c ≫= f).
Proof.
  intros Hc Hf σ HI. rewrite bind_run. specialize (Hc σ HI).
  destruct (c σ) as [[[a|e] σ1] ev1]; simpl in *; [|done].
  specialize (Hf a σ1 Hc). by destruct (f a σ1) as [[r σ2] ev2].
Qed.

Lemma preserves_try_except {A} (I : db → Prop) (c h : M A) e :
  preserves I c → preserves I h → preserves I (try_except c e h).
Proof.
  intros Hc Hh σ HI. unfold try_except. specialize (Hc σ HI).
  destruct (c σ) as [[[a|e'] σ1] ev1]; simpl in *; [done|].
  case_decide; [|done].
  specialize (Hh σ1 Hc). by destruct (h σ1) as [[r σ2] ev2].
Qed.

Lemma preserves_for_fold {A S} (I : db → Prop) (l : list A)
    (body : A → S → M S) :
  (∀ x s, preserves I (body x s)) → ∀ s, preserves I (for_fold l body s).
Proof.
  intros Hb. induction l as [|x l IH]; intros s; simpl.
  - apply preserves_ret.
  - apply preserves_bind; [apply Hb|apply IH].
Qed.

Lemma preserves_for_each {A} (I : db → Prop) (l : list A) (body : A → M ()) :
  (∀ x, preserves I (body x)) → preserves I (for_each l body).
Proof.
  intros Hb. induction l as [|x l IH]; simpl.
  - apply preserves_ret.
  - apply preserves_bind; [apply Hb|done].
Qed.

Lemma preserves_get (I : db → Prop) q : preserves I (User_objects_get q).
Proof. intros σ HI. unfold User_objects_get. by repeat case_match. Qed.

Section Invariant.

(** An invariant every write of the method keeps. *)
Variable I : db → Prop.
Variable self : Backend.
Hypothesis Hinsert : ∀ params, preserves I (User_insert params).
Hypothesis Hsave : ∀ user, preserves I (User_save user).
Hypothesis Hgroup : ∀ name, preserves I (Group_objects_get_or_create name).
Hypothesis Hadd : ∀ group user, preserves I (user_set_add group user).
Hypothesis Hremove : ∀ group user, preserves I (user_set_remove group user).
Hypothesis Hhook : ∀ user σ, I σ → I (configure_user self user σ).2.

Lemma preserves_get_or_create username defaults :
  preserves I (User_objects_get_or_create username defaults).
Proof.
  assert (Hget : ∀ q, preserves I
            (u ← User_objects_get q; mret (u, false))).
  { intros q. apply preserves_bind; [apply preserves_get|].
    intros u. apply preserves_ret. }
  unfold User_objects_get_or_create.
  apply preserves_try_except; [apply Hget|].
  apply preserves_try_except.
  { apply preserves_bind; [apply Hinsert|]. intros obj. apply preserves_ret. }
  apply preserves_try_except; [apply Hget|apply preserves_raise].
Qed.

Lemma preserves_sync_groups groups user :
  preserves I (sync_groups groups user).
Proof.
  unfold sync_groups. apply preserves_bind.
  { destruct groups as [[]|]; by intros σ. }
  intros gs. apply preserves_bind.
  { apply preserves_for_fold. intros g used.
    apply preserves_bind; [apply Hgroup|]. intros group.
    apply preserves_bind; [apply Hadd|]. intros _. apply preserves_ret. }
  intros used. apply preserves_bind; [by intros σ|].
  intros stale. apply preserves_for_each. intros group. apply Hremove.
Qed.

Lemma preserves_reconcile username groups
    (shib_meta shib_user_params : gmap string attr) :
  preserves I (reconcile self username groups shib_meta shib_user_params).
Proof.
  unfold reconcile. destruct (create_unknown_user self).
  - apply preserves_bind; [apply preserves_get_or_create|].
    intros [user created]. apply preserves_bind.
    { destruct created.
      - intros σ HI. unfold self_configure_user.
        specialize (Hhook user σ HI).
        by destruct (configure_user self user σ).
      - destruct (update_fields shib_user_params user) as [user' updated].
        apply preserves_bind; [|intros _; apply preserves_ret].
        destruct updated; [apply Hsave|apply preserves_ret]. }
    intros user'. apply preserves_bind; [apply preserves_sync_groups|].
    intros _. apply preserves_bind; [by intros σ|].
    intros _. apply preserves_ret.
  - apply preserves_try_except; [|apply preserves_ret].
    apply preserves_bind; [apply preserves_get|]. intros u. apply preserves_ret.
Qed.

(** Whatever the arguments and however the call ends, [authenticate]
    keeps an invariant that each of its six writes keeps. *)
Lemma authenticate_preserves fn remote_user (shib_meta : gmap string attr) σ :
  I σ → I (db_after (authenticate fn self remote_user shib_meta σ)).
Proof.
  intros HI. unfold authenticate.
  destruct remote_user as [ru|]; [|done].
  destruct (truthy (Some ru)); [|done].
  destruct (shib_meta !! "groups") as [g|].
  - pose proof (preserves_reconcile (clean_username self ru) (Some g)
      (delete "groups" shib_meta)
      (shib_user_params_of fn (delete "groups" shib_meta)) σ HI) as H.
    by destruct (reconcile _ _ _ _ _ _) as [[r σ'] ev].
  - pose proof (preserves_reconcile (clean_username self ru) None shib_meta
      (shib_user_params_of fn shib_meta) σ HI) as H.
    by destruct (reconcile _ _ _ _ _ _) as [[r σ'] ev].
Qed.

End Invariant.

(** *** Uniqueness of primary keys and usernames *)

Lemma elem_of_usernames v rows :
  v ∈ usernames rows ↔ ∃ r, r ∈ rows ∧ fields r !! "username" = Some v.
Proof. unfold usernames. apply list_elem_of_omap. Qed.

Lemma insert_keeps_wf_users params :
  preserves (λ σ, wf_users (auth_user σ)) (User_insert params).
Proof.
  intros σ [Hpk Hun]. unfold User_insert. case_decide as Ht; [done|].
  cbn [fst snd auth_user].
  set (obj := mkUser (next_pk (auth_user σ)) params).
  split.
  - rewrite fmap_app. apply NoDup_app. split; [done|]. split.
    + intros p Hp [->|[]%elem_of_nil]%elem_of_cons.
      by apply (next_pk_fresh (auth_user σ)).
    + apply NoDup_singleton.
  - unfold usernames. rewrite omap_app.
    assert (omap (λ r : User, fields r !! "username") [to_db obj] =
            omap (λ r : User, fields r !! "username") [obj]) as ->.
    { cbn [omap list_omap]. by rewrite to_db_username. }
    apply NoDup_app. split; [done|]. split.
    + intros v (r & Hr & Hv)%elem_of_usernames Hin. simpl in Hin.
      destruct (params !! "username") as [w|] eqn:Hw; simpl in Hin;
        [|by apply elem_of_nil in Hin].
      apply list_elem_of_singleton in Hin as ->.
      apply Ht, Exists_exists. exists r. rewrite Hw. eauto.
    + simpl. destruct (params !! "username"); simpl;
        [apply NoDup_singleton|apply NoDup_nil_2].
Qed.

Lemma save_other_rows user row (rows : list User) :
  pk user ∉ pk <$> rows →
  (λ r, if decide (pk r = pk user) then row else r) <$> rows = rows.
Proof.
  induction rows as [|r rows IH]; [done|]. csimpl.
  rewrite not_elem_of_cons. intros [Hne Hnin].
  rewrite decide_False by done. by rewrite IH.
Qed.

Lemma save_keeps_wf_users user :
  preserves (λ σ, wf_users (auth_user σ)) (User_save user).
Proof.
  intros σ [Hpk Hun]. unfold User_save. case_decide as Ht; [done|].
  cbn [fst snd auth_user].
  unfold username_taken in Ht. revert Hpk Hun Ht.
  pose proof (to_db_username user) as Hname.
  assert (pk (to_db user) = pk user) as Hrowpk by done.
  revert Hname Hrowpk. generalize (to_db user). intros row Hname Hrowpk.
  generalize (auth_user σ). clear σ. intros rows.
  induction rows as [|r rows IH]; [done|]. csimpl.
  intros [Hr Hpk]%NoDup_cons Hun Ht.
  rewrite Exists_cons in Ht.
  assert (Hrest : wf_users
            ((λ r, if decide (pk r = pk user) then row else r) <$> rows)).
  { apply IH; [done| |tauto]. unfold usernames in Hun. csimpl in Hun.
    destruct (fields r !! "username");
      [apply NoDup_cons in Hun as [_ Hun]; exact Hun|exact Hun]. }
  destruct (decide (pk r = pk user)) as [Heq|Hne].
  - rewrite save_other_rows by by rewrite <-Heq.
    split; [csimpl; rewrite Hrowpk, <-Heq; by apply NoDup_cons|].
    unfold usernames in *. csimpl in *. rewrite Hname.
    destruct (fields user !! "username") as [v|] eqn:Hv.
    + apply NoDup_cons. split.
      * intros (r' & Hr' & Hv')%elem_of_usernames. apply Ht. right.
        apply Exists_exists. exists r'. split; [done|].
        rewrite Hv'. split; [|eauto]. intros [= Hp].
        apply Hr. rewrite Heq, <-Hp. by apply list_elem_of_fmap_2.
      * destruct (fields r !! "username");
      [apply NoDup_cons in Hun as [_ Hun]; exact Hun|exact Hun].
    + destruct (fields r !! "username");
      [apply NoDup_cons in Hun as [_ Hun]; exact Hun|exact Hun].
  - destruct Hrest as [Hpk' Hun']. split.
    + csimpl. apply NoDup_cons. split; [|done].
      intros (x & Hx & Hin)%list_elem_of_fmap.
      apply list_elem_of_fmap in Hin as (y & -> & Hy).
      case_decide; [congruence|]. apply Hr. rewrite Hx.
      by apply list_elem_of_fmap_2.
    + unfold usernames in *. csimpl in *.
      destruct (fields r !! "username") as [w|] eqn:Hw; [|done].
      apply NoDup_cons in Hun as [Hw' Hun]. apply NoDup_cons. split; [|done].
      intros (x & Hin & Hx)%elem_of_usernames.
      apply list_elem_of_fmap in Hin as (y & -> & Hy).
      case_decide.
      * apply Ht. left. rewrite <-Hname, Hx. split; [congruence|eauto].
      * apply Hw', elem_of_usernames. eauto.
Qed.

(** X9: [authenticate] keeps the user table well formed.  If primary
    keys and usernames are unique before the call, and the hook keeps
    them so, they are unique after it, however the call ends: a new row
    gets a fresh key and is inserted only when its username is free, and
    [save()] goes through only when the new username belongs to no other
    row. *)
Theorem authenticate_keeps_users_unique fn self remote_user
    (shib_meta : gmap string attr) σ :
  (∀ user σ, wf_users (auth_user σ) →
             wf_users (auth_user (configure_user self user σ).2)) →
  wf_users (auth_user σ) →
  wf_users (auth_user (db_after (authenticate fn self remote_user shib_meta σ))).
Proof.
  intros Hhook.
  apply (authenticate_preserves (λ σ, wf_users (auth_user σ)) self).
  - apply insert_keeps_wf_users.
  - apply save_keeps_wf_users.
  - intros name s Hs. unfold Group_objects_get_or_create. by case_decide.
  - intros group user s Hs. unfold user_set_add. by case_decide.
  - by intros group user s Hs.
  - exact Hhook.
Qed.

(** *** Uniqueness of group names and membership rows *)

Lemma NoDup_snoc_fresh {A} (l : list A) x : x ∉ l → NoDup l → NoDup (l ++ [x]).
Proof.
  intros Hx Hl. apply NoDup_app. split; [done|]. split.
  - intros y Hy ->%list_elem_of_singleton. done.
  - apply NoDup_singleton.
Qed.

(** X8: [authenticate] never duplicates a group or a membership row.
    If no group name and no (user, group) row occurs twice before the
    call, and the hook keeps it so, none does after it, however the call
    ends and however often a name occurs in [groups]. *)
Theorem authenticate_keeps_groups_unique fn self remote_user
    (shib_meta : gmap string attr) σ :
  (∀ user σ, wf_groups σ → wf_groups (configure_user self user σ).2) →
  wf_groups σ →
  wf_groups (db_after (authenticate fn self remote_user shib_meta σ)).
Proof.
  intros Hhook.
  apply (authenticate_preserves wf_groups self); [| | | | |exact Hhook].
  - intros params s Hs. unfold User_insert. by case_decide.
  - intros user s Hs. unfold User_save. by case_decide.
  - intros name s [Hg Hm]. unfold Group_objects_get_or_create.
    case_decide; [done|]. split; [|done]. by apply NoDup_snoc_fresh.
  - intros group user s [Hg Hm]. unfold user_set_add.
    case_decide; [done|]. split; [done|]. by apply NoDup_snoc_fresh.
  - intros group user s [Hg Hm]. split; [done|]. simpl. by apply NoDup_filter.
Qed.

(** X7: [authenticate] never deletes a user or a group.  Every primary
    key in the user table and every group name in the group table before
    the call is still there after it, however the call ends, provided
    the hook deletes none either. *)
Theorem authenticate_never_deletes_users_or_groups fn self remote_user
    (shib_meta : gmap string attr) σ :
  (∀ user s, pk <$> auth_user s ⊆ pk <$> auth_user (configure_user self user s).2
             ∧ auth_group s ⊆ auth_group (configure_user self user s).2) →
  let out := authenticate fn self remote_user shib_meta σ in
  pk <$> auth_user σ ⊆ pk <$> auth_user (db_after out) ∧
  auth_group σ ⊆ auth_group (db_after out).
Proof.
  intros Hhook out. subst out.
  apply (authenticate_preserves
           (λ s, pk <$> auth_user σ ⊆ pk <$> auth_user s ∧
                 auth_group σ ⊆ auth_group s) self); [..|done].
  - intros params s [Hu Hg]. unfold User_insert. case_decide; [done|]. simpl.
    split; [|done]. rewrite fmap_app. set_solver.
  - intros user s [Hu Hg]. unfold User_save. case_decide; [done|].
    cbn [fst snd auth_user auth_group].
    split; [|done]. intros p Hp. apply Hu in Hp.
    apply list_elem_of_fmap in Hp as (r & -> & Hr).
    apply list_elem_of_fmap.
    exists (if decide (pk r = pk user) then to_db user else r). split.
    + by case_decide.
    + apply list_elem_of_fmap. by exists r.
  - intros name s [Hu Hg]. unfold Group_objects_get_or_create.
    case_decide; [done|]. simpl. split; [done|]. set_solver.
  - intros group user s [Hu Hg]. unfold user_set_add. by case_decide.
  - by intros group user s [Hu Hg].
  - intros user s [Hu Hg]. destruct (Hhook user s). split; set_solver.
Qed.

(** ** The tables after a call *)

Lemma sync_groups_group_table groups user σ h :
  iterable groups →
  h ∈ auth_group (sync_groups (Some groups) user σ).1.2 ↔
  h ∈ auth_group σ ∨ h ∈ iter_values groups.
Proof.
  intros Hit.
  destruct (add_loop_run user (iter_values groups) [] σ)
    as (σ1 & ev1 & Hrun1 & _ & _ & Hg1 & _).
  destruct (remove_loop_run user
              (filter (λ g, g ∉ iter_values groups)
                 ((filter (λ r, r.1 = pk user) (auth_user_groups σ1)).*2)) σ1)
    as (σ2 & ev2 & Hrun2 & _ & Hg2 & _).
  assert (sync_groups (Some groups) user σ =
          (Return (), σ2, [] ++ ev1 ++ [MembershipSelect (pk user)] ++ ev2)) as ->.
  { unfold sync_groups.
    eapply bind_Return; [by apply iter_Some|].
    eapply bind_Return; [exact Hrun1|].
    eapply bind_Return; [reflexivity|exact Hrun2]. }
  simpl. by rewrite Hg2, Hg1.
Qed.

Lemma after_user_db groups user (shib_meta : gmap string attr) σ :
  iterable groups →
  (after_user (Some groups) user shib_meta σ).1.2 =
  (sync_groups (Some groups) user σ).1.2.
Proof.
  intros Hit.
  destruct (sync_groups_run groups (iter_values groups) user σ
              (iter_Some _ _ Hit))
    as (σ' & ev & Hrun & _).
  unfold after_user. rewrite bind_run, Hrun. done.
Qed.

(** What lines 62-75 do to the tables, and how they end. *)
Lemma after_user_tables evs groups user (shib_meta : gmap string attr) σ :
  let x := prepend evs (after_user groups user shib_meta σ) in
  auth_user x.1.2 = auth_user σ ∧
  (∀ p, p ≠ pk user → groups_of x.1.2 p = groups_of σ p) ∧
  (not_iterable groups → x.1.1 = Raise TypeError ∧ x.1.2 = σ) ∧
  (∀ a, groups = Some a → iterable a →
     x.1.1 = Return (Some user) ∧
     groups_of x.1.2 (pk user) = list_to_set (iter_values a) ∧
     (∀ h, h ∈ auth_group x.1.2 ↔ h ∈ auth_group σ ∨ h ∈ iter_values a)).
Proof.
  intros x. subst x.
  destruct (not_iterable_cases groups) as [Hnone|(g & -> & Hit)].
  - rewrite after_user_raises by done. simpl.
    split; [done|]. split; [done|]. split; [done|].
    intros a -> Ha. by destruct a.
  - pose proof (after_user_db g user shib_meta σ Hit) as Hdb.
    destruct (after_user_Some g user shib_meta σ Hit)
      as (σ' & ev & Hrun & Hu & Hg & Hframe & _).
    unfold prepend. rewrite Hrun in *. simpl in *.
    split; [done|]. split; [done|]. split; [by destruct g|].
    intros a [= <-] _. split; [done|]. split; [done|].
    intros h. rewrite Hdb. by apply sync_groups_group_table.
Qed.

(** With the inherited hook, a call either faults on the user table and
    changes nothing, or settles on one user, whose row is in the table,
    and goes on to lines 62-75 with the user table changed in that row
    at most.  The user holds every recognised field as the dictionary
    has it; the row is the one that was read, or the one the user was
    written as. *)
Lemma reconcile_settles self username groups
    (shib_meta shib_user_params : gmap string attr) σ :
  create_unknown_user self = true →
  configure_user self = inherited_configure_user →
  let x := reconcile self username groups shib_meta shib_user_params σ in
  let found := filter (row_matches (by_username username)) (auth_user σ) in
  ((x.1.1 = Raise IntegrityError ∨ x.1.1 = Raise MultipleObjectsReturned)
   ∧ x.1.2 = σ)
  ∨ ∃ evs user row s,
      x = prepend evs (after_user groups user shib_meta s) ∧
      auth_group s = auth_group σ ∧
      auth_user_groups s = auth_user_groups σ ∧
      row ∈ auth_user s ∧
      pk row = pk user ∧
      (row = user ∨ row = to_db user) ∧
      row_matches shib_user_params user ∧
      ((found = [] ∧ pk user ∉ pk <$> auth_user σ
        ∧ auth_user s = auth_user σ ++ [row])
       ∨ (∃ u0, found = [u0] ∧ pk user = pk u0 ∧
                (auth_user s = auth_user σ
                 ∨ auth_user s = auth_user (saved user σ)))).
Proof.
  intros Hcreate Hhook x found. subst x found.
  destruct (filter (row_matches (by_username username)) (auth_user σ))
    as [|u0 [|u1 rest]] eqn:Hf.
  - destruct (decide (username_taken (auth_user σ) None
                        (shib_user_params ∪ by_username username))) as [Ht|Ht].
    + rewrite (reconcile_refused _ Hcreate _ _ _ _ _ Hf Ht). left. auto.
    + rewrite (reconcile_created _ Hcreate _ _ _ _ _ Hf Ht).
      rewrite Hhook. unfold inherited_configure_user. cbn [fst snd].
      set (obj := mkUser (next_pk (auth_user σ))
                    (shib_user_params ∪ by_username username)).
      right. eexists _, obj, (to_db obj), _. split; [reflexivity|].
      cbn [auth_user auth_group auth_user_groups].
      split; [done|]. split; [done|].
      split; [apply elem_of_app; right; left|].
      split; [done|]. split; [by right|]. split.
      * apply row_matches_subseteq. simpl. apply map_union_subseteq_l.
      * left. split; [done|]. split; [apply next_pk_fresh|done].
  - rewrite (reconcile_found _ Hcreate _ _ _ _ _ _ Hf).
    destruct (found_in _ _ _ Hf) as [Hin _].
    destruct (decide (row_matches shib_user_params u0)) as [Hm|Hm].
    + right. exists [UserSelect (by_username username)], u0, u0, σ.
      split; [reflexivity|].
      split; [done|]. split; [done|]. split; [done|]. split; [done|].
      split; [by left|]. split; [done|].
      right. exists u0. auto.
    + set (u1 := mkUser (pk u0) (shib_user_params ∪ fields u0)).
      destruct (decide (username_taken (auth_user σ) (Some (pk u0)) (fields u1)))
        as [Ht|Ht].
      * left. auto.
      * right. eexists _, u1, (to_db u1), _. split; [reflexivity|].
        cbn [auth_group auth_user_groups saved].
        split; [done|]. split; [done|].
        split; [by apply (saved_elem u1 σ u0)|].
        split; [done|]. split; [by right|]. split.
        -- apply row_matches_subseteq. simpl. apply map_union_subseteq_l.
        -- right. exists u0. auto.
  - rewrite (reconcile_ambiguous _ Hcreate _ _ _ _ _ _ _ _ Hf). left. auto.
Qed.

Section Settled.

Variables (fn : list string) (self : Backend) (ru : string).
Variables (shib_meta : gmap string attr) (σ : db).
Hypothesis Hru : ru ≠ "".
Hypothesis Hcreate : create_unknown_user self = true.
Hypothesis Hhook : configure_user self = inherited_configure_user.

Local Abbreviation out := (authenticate fn self (Some ru) shib_meta σ).
Local Abbreviation params := (shib_user_params_of fn (delete "groups" shib_meta)).
Local Abbreviation found :=
  (filter (row_matches (by_username (clean_username self ru))) (auth_user σ)).

Lemma authenticate_settles :
  ((returned out = Raise IntegrityError
    ∨ returned out = Raise MultipleObjectsReturned) ∧ db_after out = σ)
  ∨ ∃ evs user row s,
      (returned out, db_after out, events out) =
        prepend evs (after_user (shib_meta !! "groups") user
                       (delete "groups" shib_meta) s) ∧
      auth_group s = auth_group σ ∧
      auth_user_groups s = auth_user_groups σ ∧
      row ∈ auth_user s ∧
      pk row = pk user ∧
      (row = user ∨ row = to_db user) ∧
      row_matches params user ∧
      ((found = [] ∧ pk user ∉ pk <$> auth_user σ
        ∧ auth_user s = auth_user σ ++ [row])
       ∨ (∃ u0, found = [u0] ∧ pk user = pk u0 ∧
                (auth_user s = auth_user σ
                 ∨ auth_user s = auth_user (saved user σ)))).
Proof.
  rewrite authenticate_run by done. cbv zeta. cbn [returned db_after events].
  destruct (reconcile_settles self (clean_username self ru)
              (shib_meta !! "groups") (delete "groups" shib_meta) params σ
              Hcreate Hhook) as [Hfault|(evs & user & row & s & Hx & Hrest)].
  - by left.
  - right. exists evs, user, row, s. split; [|exact Hrest].
    rewrite <-Hx. by destruct (reconcile _ _ _ _ _ _) as [[r σ'] ev].
Qed.

(** X6: a call changes the memberships of one user only.  With the
    inherited hook, when [authenticate] returns a user every other user
    is in the same groups as before, and when it raises the membership
    table is unchanged. *)
Theorem authenticate_leaves_other_memberships :
  let out := authenticate fn self (Some ru) shib_meta σ in
  (∀ user, returned out = Return (Some user) →
     ∀ p, p ≠ pk user → groups_of (db_after out) p = groups_of σ p) ∧
  ((∀ user, returned out ≠ Return (Some user)) →
     auth_user_groups (db_after out) = auth_user_groups σ).
Proof.
  cbv zeta.
  destruct authenticate_settles
    as [[Hr ->]|(evs & user & row & s & Hx & _ & Hm & _)].
  - split; [|done]. intros user Hu. destruct Hr as [Hr|Hr]; congruence.
  - pose proof (after_user_tables evs (shib_meta !! "groups") user
                  (delete "groups" shib_meta) s)
      as (_ & Hframe & Hnone & Hsome).
    cbv zeta in Hframe, Hnone, Hsome.
    rewrite <-Hx in Hframe, Hnone, Hsome. cbn [fst snd] in *.
    destruct (not_iterable_cases (shib_meta !! "groups"))
      as [Hn|(a & Ha & Hit)].
    + destruct (Hnone Hn) as (Hr & ->). split; [|done]. congruence.
    + destruct (Hsome a Ha Hit) as (Hr & _). split.
      * intros user' Hu p Hp. rewrite Hr in Hu. injection Hu as <-.
        rewrite (Hframe p Hp). unfold groups_of. by rewrite Hm.
      * intros Hn. by destruct (Hn user).
Qed.

(** X10: a call changes one row of the user table at most.  With the
    inherited hook and recognised fields that are text or boolean
    columns holding strings, the table after the call is the table
    before, or (for a username no row holds) the table with one new row
    under a key no row had, or (for a username one row holds) the table
    with that one row saved. *)
Theorem authenticate_touches_one_user_row :
  let out := authenticate fn self (Some ru) shib_meta σ in
  let found :=
    filter (row_matches (by_username (clean_username self ru))) (auth_user σ) in
  column_params (shib_user_params_of fn (delete "groups" shib_meta)) →
  auth_user (db_after out) = auth_user σ
  ∨ (∃ row, found = [] ∧ pk row ∉ pk <$> auth_user σ ∧
            auth_user (db_after out) = auth_user σ ++ [row])
  ∨ (∃ u0 u1, found = [u0] ∧ pk u1 = pk u0 ∧
              auth_user (db_after out) = auth_user (saved u1 σ)).
Proof.
  cbv zeta. intros _.
  destruct authenticate_settles
    as [[_ ->]|(evs & user & row & s & Hx & _ & _ & _ & Hpk & _ & _ & Hrows)];
    [by left|].
  pose proof (after_user_tables evs (shib_meta !! "groups") user
                (delete "groups" shib_meta) s) as (Hu & _).
  cbv zeta in Hu. rewrite <-Hx in Hu. cbn [fst snd] in Hu. rewrite Hu.
  destruct Hrows as [(Hf & Hfresh & ->)|(u0 & Hf & Hpk0 & [->| ->])].
  - right. left. exists row. rewrite Hpk. done.
  - by left.
  - right. right. by exists u0, user.
Qed.

Lemma returned_user_stored user :
  text_params params →
  returned out = Return (Some user) →
  ∃ row, row ∈ auth_user (db_after out) ∧ pk row = pk user ∧
         row_matches params user ∧ row_matches params row.
Proof.
  intros Htext Hret.
  destruct authenticate_settles
    as [[Hr _]|(evs & user' & row & s & Hx & _ & _ & Hin & Hpk & Hrow & Hm & _)].
  { destruct Hr as [Hr|Hr]; congruence. }
  pose proof (after_user_tables evs (shib_meta !! "groups") user'
                (delete "groups" shib_meta) s) as (Hu & _ & Hnone & Hsome).
  cbv zeta in Hu, Hnone, Hsome. rewrite <-Hx in Hu, Hnone, Hsome.
  cbn [fst snd] in *.
  destruct (not_iterable_cases (shib_meta !! "groups"))
    as [Hn|(a & Ha & Hit)].
  { destruct (Hnone Hn) as (Hr & _). congruence. }
  destruct (Hsome a Ha Hit) as (Hr & _).
  rewrite Hr in Hret. injection Hret as <-.
  exists row. rewrite Hu. split; [done|]. split; [done|]. split; [done|].
  destruct Hrow as [->| ->]; [done|]. by apply row_matches_to_db.
Qed.

(** X11: the user a call returns has a row in the user table, and both
    hold every recognised field as the dictionary has it, whether the
    row was just created or was there before (inherited hook,
    recognised fields that are text columns holding strings). *)
Theorem authenticate_returns_stored_user user :
  let out := authenticate fn self (Some ru) shib_meta σ in
  let shib_user_params := shib_user_params_of fn (delete "groups" shib_meta) in
  text_params shib_user_params →
  returned out = Return (Some user) →
  ∃ row, row ∈ auth_user (db_after out) ∧ pk row = pk user ∧
    ∀ k v, shib_user_params !! k = Some v →
           fields user !! k = Some v ∧ fields row !! k = Some v.
Proof.
  cbv zeta.
  intros Htext Hret.
  destruct (returned_user_stored user Htext Hret)
    as (row & Hin & Hpk & Hm & Hmrow).
  exists row. split; [exact Hin|]. split; [exact Hpk|].
  intros k v Hk. split; [by apply (Hm k v)|by apply (Hmrow k v)].
Qed.

(** X15: groups are created on demand and only on demand.  When the
    call returns a user, the group table holds the groups it held before
    and the names iterated from the [groups] entry, nothing else. *)
Theorem authenticate_creates_asserted_groups user groups :
  let out := authenticate fn self (Some ru) shib_meta σ in
  shib_meta !! "groups" = Some groups →
  returned out = Return (Some user) →
  ∀ h, h ∈ auth_group (db_after out) ↔
       h ∈ auth_group σ ∨ h ∈ iter_values groups.
Proof.
  cbv zeta.
  intros Hg Hret.
  destruct authenticate_settles
    as [[Hr _]|(evs & user' & row & s & Hx & Hgs & _)].
  { destruct Hr as [Hr|Hr]; congruence. }
  pose proof (after_user_tables evs (shib_meta !! "groups") user'
                (delete "groups" shib_meta) s) as (_ & _ & Hnone & Hsome).
  cbv zeta in Hnone, Hsome. rewrite <-Hx in Hnone, Hsome.
  cbn [fst snd] in Hnone, Hsome.
  destruct (not_iterable_cases (shib_meta !! "groups"))
    as [Hn|(a & Ha & Hit)].
  { destruct (Hnone Hn) as (Hr & _). congruence. }
  assert (a = groups) as -> by congruence.
  destruct (Hsome groups Ha Hit) as (_ & _ & Htable).
  intros h. by rewrite Htable, Hgs.
Qed.

(** X12: a user created or updated by a call is the one a lookup-only
    backend finds with the same dictionary (recognised fields that are
    text columns holding strings).  After [authenticate] returned
    [user], a backend with [create_unknown_user = False], given the same
    dictionary on the tables the first call left, returns the row of
    that same user, unless another row also carries all the recognised
    fields (then the lookup is ambiguous); it never answers [None]. *)
Theorem authenticate_then_lookup_finds_user user self' ru' :
  let out := authenticate fn self (Some ru) shib_meta σ in
  let out' := authenticate fn self' (Some ru') shib_meta (db_after out) in
  text_params (shib_user_params_of fn (delete "groups" shib_meta)) →
  returned out = Return (Some user) →
  ru' ≠ "" →
  create_unknown_user self' = false →
  (∃ row, returned out' = Return (Some row) ∧ pk row = pk user ∧
          row ∈ auth_user (db_after out))
  ∨ returned out' = Raise MultipleObjectsReturned.
Proof.
  cbv zeta. intros Htext Hret Hru' Hno.
  destruct (returned_user_stored user Htext Hret)
    as (row & Hin & Hpk & _ & Hm).
  rewrite (authenticate_run fn self' ru') by done. cbv zeta.
  rewrite (reconcile_no_create _ _ _ _ _ _ Hno). cbn [returned fst snd].
  destruct (filter (row_matches params) (auth_user (db_after out)))
    as [|x [|y rest]] eqn:Hf.
  - assert (row ∈ filter (row_matches params) (auth_user (db_after out)))
      as Hc by by apply list_elem_of_filter.
    rewrite Hf in Hc. by apply elem_of_nil in Hc.
  - left. exists row. pose proof (found_elem _ _ _ _ Hf Hin Hm) as <-. done.
  - by right.
Qed.

End Settled.

(** ** Edge cases of the lookup without creation (lines 43, 77-81) *)

(** X1: with [create_unknown_user = False] only [DoesNotExist] is
    caught.  When two or more rows carry all the recognised fields,
    [authenticate] raises [MultipleObjectsReturned] and the tables are
    unchanged. *)
Theorem authenticate_ambiguous_lookup_raises fn self ru
    (shib_meta : gmap string attr) σ u0 u1 rest :
  ru ≠ "" →
  create_unknown_user self = false →
  filter (row_matches (shib_user_params_of fn (delete "groups" shib_meta)))
    (auth_user σ) = u0 :: u1 :: rest →
  let out := authenticate fn self (Some ru) shib_meta σ in
  returned out = Raise MultipleObjectsReturned ∧ db_after out = σ.
Proof.
  intros Hru Hno Hf out. subst out.
  rewrite authenticate_run by done. cbv zeta.
  rewrite (reconcile_no_create _ _ _ _ _ _ Hno), Hf. done.
Qed.

Lemma no_recognised_key fn (shib_meta : gmap string attr) :
  (∀ k, k ∈ fn → k ≠ "groups" → shib_meta !! k = None) →
  shib_user_params_of fn (delete "groups" shib_meta) = ∅.
Proof.
  intros Hnone. apply map_eq. intros k.
  rewrite shib_user_params_lookup, lookup_empty. case_decide; [|done].
  destruct (decide (k = "groups")) as [->|Hk].
  - apply lookup_delete_eq.
  - rewrite lookup_delete_ne by done. by apply Hnone.
Qed.

Lemma filter_row_matches_empty (rows : list User) :
  filter (row_matches ∅) rows = rows.
Proof.
  induction rows as [|r rows IH]; [done|].
  rewrite filter_cons_True by apply map_Forall_empty. by rewrite IH.
Qed.

(** X2: a dictionary without any recognised key makes an empty query.
    With [create_unknown_user = False] and no key of the dictionary
    (besides [groups]) among the field names, [authenticate] returns the
    only row of a one-row user table whoever [remote_user] names,
    [None] on an empty table, and raises [MultipleObjectsReturned] on a
    larger one. *)
Theorem authenticate_empty_query fn self ru (shib_meta : gmap string attr) σ :
  ru ≠ "" →
  create_unknown_user self = false →
  (∀ k, k ∈ fn → k ≠ "groups" → shib_meta !! k = None) →
  returned (authenticate fn self (Some ru) shib_meta σ) =
  match auth_user σ with
  | [] => Return None
  | [u0] => Return (Some u0)
  | _ :: _ :: _ => Raise MultipleObjectsReturned
  end.
Proof.
  intros Hru Hno Hnone.
  rewrite authenticate_run by done. cbv zeta.
  rewrite (reconcile_no_create _ _ _ _ _ _ Hno).
  rewrite (no_recognised_key _ _ Hnone), filter_row_matches_empty. done.
Qed.

(** ** A [groups] entry that is a string (line 66) *)

(** X13: [for g in groups] iterates over whatever the entry is.  When
    the [groups] entry is a string of ASCII characters instead of a
    list, every user the method returns ends in one group per distinct
    character of the string; and the method does return such a user
    under the conditions of C1. *)
Theorem authenticate_string_groups_by_character fn self ru
    (shib_meta : gmap string attr) (s : string) σ :
  ru ≠ "" →
  create_unknown_user self = true →
  shib_meta !! "groups" = Some (AStr s) →
  Forall (λ c, (Ascii.nat_of_ascii c < 128)%nat) (String.list_ascii_of_string s) →
  let out := authenticate fn self (Some ru) shib_meta σ in
  let username := clean_username self ru in
  let shib_user_params := shib_user_params_of fn (delete "groups" shib_meta) in
  let found := filter (row_matches (by_username username)) (auth_user σ) in
  let names := (λ c, String c EmptyString) <$> String.list_ascii_of_string s in
  (∀ user, returned out = Return (Some user) →
     groups_of (db_after out) (pk user) = list_to_set names) ∧
  (column_params shib_user_params →
   (List.length found ≤ 1)%nat →
   shib_user_params !! "username" = None
   ∨ shib_user_params !! "username" = Some (AStr username) →
   ∃ user, returned out = Return (Some user) ∧
           groups_of (db_after out) (pk user) = list_to_set names).
Proof.
  intros Hru Hcreate Hg _ out username params found names.
  subst out found names.
  rewrite authenticate_run by done. cbv zeta. rewrite Hg.
  cbn [returned db_after].
  destruct (create_with_groups self username (AStr s)
              (delete "groups" shib_meta) params σ Hcreate I) as [Hall Hret].
  split; [exact Hall|]. intros _ Hlen Hname.
  destruct (Hret Hlen Hname) as (user & Hr & Hgr & _). eauto.
Qed.

(** ** Keys the schema does not know (line 43) *)

Lemma after_user_meta_irrelevant groups user (m1 m2 : gmap string attr) σ :
  (after_user groups user m1 σ).1 = (after_user groups user m2 σ).1.
Proof.
  unfold after_user. rewrite !bind_run.
  by destruct (sync_groups groups user σ) as [[[[]|e] σ1] ev1].
Qed.

Lemma reconcile_meta_irrelevant self username groups
    (m1 m2 shib_user_params : gmap string attr) σ :
  (reconcile self username groups m1 shib_user_params σ).1 =
  (reconcile self username groups m2 shib_user_params σ).1.
Proof.
  destruct (create_unknown_user self) eqn:Hcreate.
  - destruct (filter (row_matches (by_username username)) (auth_user σ))
      as [|u0 [|u1 rest]] eqn:Hf.
    + destruct (decide (username_taken (auth_user σ) None
                          (shib_user_params ∪ by_username username))) as [Ht|Ht].
      * by rewrite !(reconcile_refused _ Hcreate _ _ _ _ _ Hf Ht).
      * rewrite !(reconcile_created _ Hcreate _ _ _ _ _ Hf Ht).
        unfold prepend. cbn [fst snd].
        match goal with |- context [after_user ?g ?u m1 ?s] =>
          by rewrite (after_user_meta_irrelevant g u m1 m2 s) end.
    + rewrite !(reconcile_found _ Hcreate _ _ _ _ _ _ Hf).
      repeat case_decide; try done; unfold prepend; cbn [fst snd];
        match goal with |- context [after_user ?g ?u m1 ?s] =>
          by rewrite (after_user_meta_irrelevant g u m1 m2 s) end.
    + by rewrite !(reconcile_ambiguous _ Hcreate _ _ _ _ _ _ _ _ Hf).
  - by rewrite !(reconcile_no_create _ _ _ _ _ _ Hcreate).
Qed.

(** X14: keys that are not field names never reach the store.  Two
    dictionaries with the same [groups] entry and the same value under
    every field name give the same result and the same tables, for every
    backend and every [remote_user]. *)
Theorem authenticate_ignores_unrecognised_keys fn self remote_user
    (m1 m2 : gmap string attr) σ :
  m1 !! "groups" = m2 !! "groups" →
  (∀ k, k ∈ fn → m1 !! k = m2 !! k) →
  returned (authenticate fn self remote_user m1 σ) =
    returned (authenticate fn self remote_user m2 σ) ∧
  db_after (authenticate fn self remote_user m1 σ) =
    db_after (authenticate fn self remote_user m2 σ).
Proof.
  intros Hg Hk.
  destruct remote_user as [ru|]; [|done].
  destruct (decide (ru = "")) as [->|Hru]; [done|].
  rewrite !authenticate_run by done. cbv zeta. cbn [returned db_after].
  assert (shib_user_params_of fn (delete "groups" m1) =
          shib_user_params_of fn (delete "groups" m2)) as ->.
  { apply map_eq. intros k. rewrite !shib_user_params_lookup.
    case_decide; [|done]. destruct (decide (k = "groups")) as [->|Hne].
    - by rewrite !lookup_delete_eq.
    - rewrite !lookup_delete_ne by done. by apply Hk. }
  rewrite Hg.
  pose proof (reconcile_meta_irrelevant self (clean_username self ru)
                (m2 !! "groups") (delete "groups" m1) (delete "groups" m2)
                (shib_user_params_of fn (delete "groups" m2)) σ) as Heq.
  by rewrite Heq.
Qed.

(** ** The further properties at concrete inputs *)

Lemma authenticate_ambiguous_lookup_raises_witness :
  let twin := mkUser 3 {[ "username" := AStr "alice2";
                          "email" := AStr "alice@example.org" ]} in
  let σ := mkDb [alice; bob; twin] [] [] in
  let out := authenticate auth_user_field_names NoCreateBackend (Some "alice")
               {[ "email" := AStr "alice@example.org" ]} σ in
  returned out = Raise MultipleObjectsReturned ∧ db_after out = σ.
Proof.
  cbv zeta.
  apply (authenticate_ambiguous_lookup_raises auth_user_field_names
           NoCreateBackend "alice" {[ "email" := AStr "alice@example.org" ]}
           _ alice (mkUser 3 {[ "username" := AStr "alice2";
                                "email" := AStr "alice@example.org" ]}) []);
    [done|reflexivity|by vm_compute].
Defined.

Lemma authenticate_empty_query_witness :
  returned (authenticate auth_user_field_names NoCreateBackend (Some "mallory")
              {[ "Shib-Session-ID" := AStr "_5f3c" ]} (mkDb [bob] [] [])) =
  Return (Some bob).
Proof.
  apply (authenticate_empty_query auth_user_field_names NoCreateBackend
           "mallory" {[ "Shib-Session-ID" := AStr "_5f3c" ]} (mkDb [bob] [] []));
    [done|reflexivity|].
  intros k Hk _. unfold auth_user_field_names in Hk.
  repeat (apply elem_of_cons in Hk as [->|Hk]; [by vm_compute|]).
  by apply elem_of_nil in Hk.
Defined.

Lemma authenticate_without_groups_never_returns_witness :
  let out := authenticate auth_user_field_names ShibbolethRemoteUserBackend
               (Some "bob") {[ "username" := AStr "bob" ]} example_db in
  returned out ≠ Return (Some bob).
Proof.
  apply (authenticate_without_groups_never_returns auth_user_field_names
           ShibbolethRemoteUserBackend "bob" {[ "username" := AStr "bob" ]}
           example_db); [done|reflexivity|by vm_compute].
Defined.

Lemma authenticate_creates_and_configures_witness :
  let shib_meta : gmap string attr :=
    {[ "groups" := AList ["B"]; "email" := AStr "carol@example.org" ]} in
  let out := authenticate auth_user_field_names ShibbolethRemoteUserBackend
               (Some "carol") shib_meta example_db in
  ∃ obj ev,
    pk obj ∉ pk <$> auth_user example_db ∧
    fields obj !! "email" = Some (AStr "carol@example.org") ∧
    events out =
      [UserSelect {[ "username" := AStr "carol" ]}; UserInsert obj;
       ConfigureUser obj] ++ ev ∧
    returned out = Return (Some obj).
Proof.
  cbv zeta.
  destruct (authenticate_creates_and_configures auth_user_field_names
              ShibbolethRemoteUserBackend "carol"
              {[ "groups" := AList ["B"]; "email" := AStr "carol@example.org" ]}
              example_db)
    as (obj & row & σ1 & ev & Hpk & _ & Hsub & _ & _ & _ & _ & Hev & Hend);
    [done|reflexivity|refine (bool_decide_unpack _ _); by vm_compute
    |by vm_compute|refine (bool_decide_unpack _ _); by vm_compute|].
  exists obj, ev. split; [exact Hpk|]. split; [|split; [exact Hev|]].
  - eapply lookup_weaken; [|exact Hsub]. by vm_compute.
  - assert (({[ "groups" := AList ["B"]; "email" := AStr "carol@example.org" ]}
               : gmap string attr) !! "groups" = Some (AList ["B"])) as Hg
      by by vm_compute.
    cbv zeta in Hend. rewrite Hg in Hend. destruct Hend as [-> _]. done.
Defined.

Lemma authenticate_existing_user_not_configured_witness :
  Forall (λ e, ∀ u, e ≠ ConfigureUser u ∧ e ≠ UserInsert u)
    (events (authenticate auth_user_field_names ShibbolethRemoteUserBackend
               (Some "alice")
               {[ "groups" := AList ["C"]; "email" := AStr "a@example.org" ]}
               example_db)).
Proof.
  apply (authenticate_existing_user_not_configured auth_user_field_names
           ShibbolethRemoteUserBackend "alice"
           {[ "groups" := AList ["C"]; "email" := AStr "a@example.org" ]}
           example_db alice);
    [done|reflexivity|refine (bool_decide_unpack _ _); by vm_compute
    |by vm_compute].
Defined.

Lemma authenticate_leaves_other_memberships_witness :
  let out := authenticate auth_user_field_names ShibbolethRemoteUserBackend
               (Some "alice") {[ "groups" := AList ["C"] ]} example_db in
  returned out = Return (Some alice) ∧
  groups_of (db_after out) 2 = groups_of example_db 2.
Proof.
  cbv zeta. split; [by vm_compute|].
  destruct (authenticate_leaves_other_memberships auth_user_field_names
              ShibbolethRemoteUserBackend "alice"
              {[ "groups" := AList ["C"] ]} example_db) as [Hframe _];
    [done|reflexivity|reflexivity|].
  apply (Hframe alice); [by vm_compute|done].
Defined.

Lemma authenticate_never_deletes_users_or_groups_witness :
  let out := authenticate auth_user_field_names ShibbolethRemoteUserBackend
               (Some "alice") {[ "groups" := AList [] ]} example_db in
  pk <$> auth_user example_db ⊆ pk <$> auth_user (db_after out) ∧
  auth_group example_db ⊆ auth_group (db_after out).
Proof.
  apply (authenticate_never_deletes_users_or_groups auth_user_field_names
           ShibbolethRemoteUserBackend (Some "alice")
           {[ "groups" := AList [] ]} example_db).
  intros user s. simpl. done.
Defined.

Lemma authenticate_keeps_groups_unique_witness :
  wf_groups example_db ∧
  wf_groups (db_after (authenticate auth_user_field_names
                         ShibbolethRemoteUserBackend (Some "alice")
                         {[ "groups" := AList ["C"; "B"; "C"] ]} example_db)).
Proof.
  assert (wf_groups example_db) as Hwf.
  { split; refine (bool_decide_unpack _ _); by vm_compute. }
  split; [exact Hwf|].
  apply (authenticate_keeps_groups_unique auth_user_field_names
           ShibbolethRemoteUserBackend); [by intros user s|exact Hwf].
Defined.

Lemma authenticate_keeps_users_unique_witness :
  wf_users (auth_user example_db) ∧
  wf_users (auth_user (db_after (authenticate auth_user_field_names
                         ShibbolethRemoteUserBackend (Some "carol")
                         {[ "groups" := AList ["A"]; "username" := AStr "carol" ]}
                         example_db))).
Proof.
  assert (wf_users (auth_user example_db)) as Hwf.
  { split; refine (bool_decide_unpack _ _); by vm_compute. }
  split; [exact Hwf|].
  apply (authenticate_keeps_users_unique auth_user_field_names
           ShibbolethRemoteUserBackend); [by intros user s|exact Hwf].
Defined.

Lemma authenticate_touches_one_user_row_witness :
  let shib_meta : gmap string attr :=
    {[ "groups" := AList ["A"]; "email" := AStr "carol@example.org" ]} in
  let out := authenticate auth_user_field_names ShibbolethRemoteUserBackend
               (Some "carol") shib_meta example_db in
  auth_user (db_after out) = auth_user example_db
  ∨ (∃ row,
       filter (row_matches {[ "username" := AStr "carol" ]})
         (auth_user example_db) = [] ∧
       pk row ∉ pk <$> auth_user example_db ∧
       auth_user (db_after out) = auth_user example_db ++ [row])
  ∨ (∃ u0 u1,
       filter (row_matches {[ "username" := AStr "carol" ]})
         (auth_user example_db) = [u0] ∧
       pk u1 = pk u0 ∧
       auth_user (db_after out) = auth_user (saved u1 example_db)).
Proof.
  apply (authenticate_touches_one_user_row auth_user_field_names
           ShibbolethRemoteUserBackend "carol"
           {[ "groups" := AList ["A"]; "email" := AStr "carol@example.org" ]}
           example_db); [done|reflexivity|reflexivity|].
  refine (bool_decide_unpack _ _). by vm_compute.
Defined.

Lemma authenticate_returns_stored_user_witness :
  let shib_meta : gmap string attr :=
    {[ "groups" := AList ["A"]; "email" := AStr "carol@example.org" ]} in
  let out := authenticate auth_user_field_names ShibbolethRemoteUserBackend
               (Some "carol") shib_meta example_db in
  let carol := mkUser 3 {[ "username" := AStr "carol";
                           "email" := AStr "carol@example.org" ]} in
  ∃ row, row ∈ auth_user (db_after out) ∧ pk row = 3 ∧
         fields row !! "email" = Some (AStr "carol@example.org").
Proof.
  cbv zeta.
  destruct (authenticate_returns_stored_user auth_user_field_names
              ShibbolethRemoteUserBackend "carol"
              {[ "groups" := AList ["A"]; "email" := AStr "carol@example.org" ]}
              example_db) with
    (user := mkUser 3 {[ "username" := AStr "carol";
                         "email" := AStr "carol@example.org" ]})
    as (row & Hin & Hpk & Hfields);
    [done|reflexivity|reflexivity
    |refine (bool_decide_unpack _ _); by vm_compute|by vm_compute|].
  exists row. split; [exact Hin|]. split; [exact Hpk|].
  apply Hfields. by vm_compute.
Defined.

Lemma authenticate_creates_asserted_groups_witness :
  let shib_meta : gmap string attr := {[ "groups" := AList ["B"; "C"] ]} in
  let out := authenticate auth_user_field_names ShibbolethRemoteUserBackend
               (Some "alice") shib_meta example_db in
  "C" ∉ auth_group example_db ∧
  "C" ∈ auth_group (db_after out) ∧
  "D" ∉ auth_group (db_after out).
Proof.
  cbv zeta.
  pose proof (authenticate_creates_asserted_groups auth_user_field_names
                ShibbolethRemoteUserBackend "alice"
                {[ "groups" := AList ["B"; "C"] ]} example_db) as Htable.
  specialize (Htable ltac:(done) eq_refl eq_refl alice (AList ["B"; "C"])).
  assert ("C" ∉ auth_group example_db) as HC
    by (refine (bool_decide_unpack _ _); by vm_compute).
  split; [exact HC|]. split.
  - apply Htable; [by vm_compute|by vm_compute|]. right. simpl. set_solver.
  - intros HD. apply Htable in HD; [|by vm_compute|by vm_compute].
    revert HD. refine (bool_decide_unpack _ _). by vm_compute.
Defined.

Lemma authenticate_then_lookup_finds_user_witness :
  let shib_meta : gmap string attr :=
    {[ "groups" := AList ["A"]; "username" := AStr "carol";
       "email" := AStr "carol@example.org" ]} in
  let out := authenticate auth_user_field_names ShibbolethRemoteUserBackend
               (Some "carol") shib_meta example_db in
  let out' := authenticate auth_user_field_names NoCreateBackend (Some "carol")
                shib_meta (db_after out) in
  (∃ row, returned out' = Return (Some row) ∧ pk row = 3 ∧
          row ∈ auth_user (db_after out))
  ∨ returned out' = Raise MultipleObjectsReturned.
Proof.
  apply (authenticate_then_lookup_finds_user auth_user_field_names
           ShibbolethRemoteUserBackend "carol"
           {[ "groups" := AList ["A"]; "username" := AStr "carol";
              "email" := AStr "carol@example.org" ]} example_db
           ltac:(done) eq_refl eq_refl
           (mkUser 3 {[ "username" := AStr "carol";
                        "email" := AStr "carol@example.org" ]}));
    [refine (bool_decide_unpack _ _); by vm_compute
    |by vm_compute|done|reflexivity].
Defined.

Lemma authenticate_string_groups_by_character_witness :
  let out := authenticate auth_user_field_names ShibbolethRemoteUserBackend
               (Some "alice") {[ "groups" := AStr "AB" ]} example_db in
  ∃ user, returned out = Return (Some user) ∧
          groups_of (db_after out) (pk user) = list_to_set ["A"; "B"].
Proof.
  cbv zeta.
  destruct (authenticate_string_groups_by_character auth_user_field_names
              ShibbolethRemoteUserBackend "alice" {[ "groups" := AStr "AB" ]}
              "AB" example_db) as [_ Hret];
    [done|reflexivity|by vm_compute
    |repeat constructor; vm_compute; lia|].
  apply Hret;
    [refine (bool_decide_unpack _ _); by vm_compute
    |vm_compute; lia|left; by vm_compute].
Defined.

Lemma authenticate_ignores_unrecognised_keys_witness :
  let m1 : gmap string attr :=
    {[ "groups" := AList ["A"]; "email" := AStr "a@example.org";
       "Shib-Session-ID" := AStr "_1" ]} in
  let m2 : gmap string attr :=
    {[ "groups" := AList ["A"]; "email" := AStr "a@example.org";
       "Shib-Session-ID" := AStr "_2"; "Shib-Identity-Provider" := AStr "idp" ]} in
  returned (authenticate auth_user_field_names ShibbolethRemoteUserBackend
              (Some "alice") m1 example_db) =
    returned (authenticate auth_user_field_names ShibbolethRemoteUserBackend
                (Some "alice") m2 example_db) ∧
  db_after (authenticate auth_user_field_names ShibbolethRemoteUserBackend
              (Some "alice") m1 example_db) =
    db_after (authenticate auth_user_field_names ShibbolethRemoteUserBackend
                (Some "alice") m2 example_db).
Proof.
  apply (authenticate_ignores_unrecognised_keys auth_user_field_names
           ShibbolethRemoteUserBackend (Some "alice")); [by vm_compute|].
  intros k Hk. unfold auth_user_field_names in Hk.
  repeat (apply elem_of_cons in Hk as [->|Hk]; [by vm_compute|]).
  by apply elem_of_nil in Hk.
Defined.
